(** * ScrapeJournal: the Nature crawl-and-insert loop

    A shallow embedding of [download.py], [src/util.py],
    [src/sitelogic/Nature.py] and [src/sitelogic/NatureArticle.py].

    Python values are embedded as follows.
    - [str] is [string]; every character stands for one code point below 256.
    - [int] is [Z].
    - a [dict] with string keys is a [gmap string Value]; the [set] of
      author IDs is a [gset Value].
    - a raised exception is the left injection of a sum, carrying the
      exception class and its message.
    - the parsed HTML of a page is a record holding, for every CSS selector
      the program uses, what that selector yields on the page. *)

From Stdlib Require Import ZArith Ascii String List Lia Bool.
From Stdlib Require Import Numbers.DecimalString Numbers.DecimalPos.
From stdpp Require Import base option list gmap strings.

Local Open Scope string_scope.
Local Open Scope Z_scope.
Local Open Scope list_scope.

(** ** Python exceptions and the values stored in dictionaries *)

Module Py.

Inductive ExcClass :=
| IndexError | KeyError | ValueError | TypeError | AssertionError
| RequestError | DatabaseError
| CompileError     (** [sqlalchemy.exc.CompileError] *)
| AttributeError.

Record Exc := mkExc { exc_class : ExcClass; exc_msg : string }.

Definition Res (A : Type) : Type := Exc + A.

Definition raise {A} (c : ExcClass) (msg : string) : Res A := inl (mkExc c msg).

Definition is_IndexError (e : Exc) : bool :=
  match exc_class e with IndexError => true | _ => false end.

Definition bindR {A B} (r : Res A) (k : A -> Res B) : Res B :=
  match r with
  | inl e => inl e
  | inr a => k a
  end.

Inductive Value :=
| VStr (s : string)
| VInt (n : Z)
| VNone.

#[global] Instance Value_eq_dec : EqDecision Value.
Proof. solve_decision. Defined.

#[global] Instance Value_countable : Countable Value :=
  inj_countable'
    (fun v => match v with
              | VStr s => inl s
              | VInt n => inr (inl n)
              | VNone => inr (inr tt)
              end)
    (fun x => match x with
              | inl s => VStr s
              | inr (inl n) => VInt n
              | inr (inr _) => VNone
              end)
    (fun v => match v with VStr _ | VInt _ | VNone => eq_refl end).

(** [str(v)], as [print] shows a value. *)
Definition str_of_value (v : Value) : string :=
  match v with
  | VStr s => s
  | VInt n => NilZero.string_of_int (Z.to_int n)
  | VNone => "None"
  end.

Definition value_of_option (o : option string) : Value :=
  match o with
  | Some s => VStr s
  | None => VNone
  end.

(** [l[0]] on a list. *)
Definition first {A} (l : list A) : Res A :=
  match l with
  | x :: _ => inr x
  | [] => raise IndexError "list index out of range"
  end.

(** [l[i]] for a non-negative index. *)
Definition index {A} (l : list A) (i : nat) : Res A :=
  match l !! i with
  | Some x => inr x
  | None => raise IndexError "list index out of range"
  end.

(** [d[k]] on a dictionary. *)
Definition index_key {V} (d : gmap string V) (k : string) : Res V :=
  match d !! k with
  | Some v => inr v
  | None => raise KeyError ("'" +:+ k +:+ "'")
  end.

(** [l[-1]] and [l[:-1]]. *)
Definition last_elt {A} (l : list A) : Res A :=
  match List.rev l with
  | x :: _ => inr x
  | [] => raise IndexError "list index out of range"
  end.

Definition drop_last {A} (l : list A) : list A := List.removelast l.

(** *** Characters *)

Definition code (c : ascii) : N := N_of_ascii c.

Definition is_digit (c : ascii) : bool := ((48 <=? code c) && (code c <=? 57))%N.
Definition is_upper (c : ascii) : bool := ((65 <=? code c) && (code c <=? 90))%N.
Definition is_lower (c : ascii) : bool := ((97 <=? code c) && (code c <=? 122))%N.
Definition is_alnum (c : ascii) : bool := is_digit c || is_upper c || is_lower c.

(** [str.isspace] on the code points below 256. *)
Definition is_space (c : ascii) : bool :=
  let n := code c in
  (((9 <=? n) && (n <=? 13)) || ((28 <=? n) && (n <=? 32))
   || (n =? 133) || (n =? 160))%N.

(** The letters of Latin-1 beyond ASCII: capital 192 to 222 without the
    multiplication sign 215, small 224 to 254 without the division sign
    247. *)
Definition is_upper_latin (c : ascii) : bool :=
  ((192 <=? code c) && (code c <=? 222) && negb (code c =? 215))%N.
Definition is_lower_latin (c : ascii) : bool :=
  ((224 <=? code c) && (code c <=? 254) && negb (code c =? 247))%N.

Definition lower_char (c : ascii) : ascii :=
  if is_upper c || is_upper_latin c then ascii_of_N (code c + 32) else c.

(** [c.upper()].  The sharp s (223) becomes two letters.  The micro sign
    (181) and the y with diaeresis (255) have their capitals outside
    Latin-1: they are outside this embedding, and [upper] leaves them;
    [upper_representable] excludes them. *)
Definition upper_char (c : ascii) : string :=
  if is_lower c || is_lower_latin c then String (ascii_of_N (code c - 32)) EmptyString
  else if (code c =? 223)%N then String "S" (String "S" EmptyString)
  else String c EmptyString.

Definition upper_representable_char (c : ascii) : bool :=
  negb ((code c =? 181) || (code c =? 255))%N.

Definition digit_val (c : ascii) : Z := Z.of_N (code c) - 48.

(** *** Strings *)

Fixpoint map_str (f : ascii -> ascii) (s : string) : string :=
  match s with
  | EmptyString => EmptyString
  | String c s' => String (f c) (map_str f s')
  end.

(** [s.lower()] and [s.upper()]. *)
Definition lower (s : string) : string := map_str lower_char s.

Fixpoint upper (s : string) : string :=
  match s with
  | EmptyString => EmptyString
  | String c s' => String.append (upper_char c) (upper s')
  end.

Fixpoint upper_representable (s : string) : bool :=
  match s with
  | EmptyString => true
  | String c s' => upper_representable_char c && upper_representable s'
  end.

Fixpoint rev_str (acc s : string) : string :=
  match s with
  | EmptyString => acc
  | String c s' => rev_str (String c acc) s'
  end.

Definition reverse (s : string) : string := rev_str EmptyString s.

Fixpoint lstrip_by (p : ascii -> bool) (s : string) : string :=
  match s with
  | EmptyString => EmptyString
  | String c s' => if p c then lstrip_by p s' else s
  end.

Definition rstrip_by (p : ascii -> bool) (s : string) : string :=
  reverse (lstrip_by p (reverse s)).

(** [s.strip()], [s.rstrip('k')], [s.endswith('k')]. *)
Definition strip (s : string) : string := rstrip_by is_space (lstrip_by is_space s).
Definition rstrip_char (k : ascii) (s : string) : string := rstrip_by (Ascii.eqb k) s.
Definition endswith_char (k : ascii) (s : string) : bool :=
  match reverse s with
  | String c _ => Ascii.eqb c k
  | EmptyString => false
  end.

(** [sub in s]. *)
Fixpoint contains (sub s : string) : bool :=
  String.prefix sub s ||
  match s with
  | EmptyString => false
  | String _ s' => contains sub s'
  end.

Definition cons_head (c : ascii) (l : list string) : list string :=
  match l with
  | t :: ts => String c t :: ts
  | [] => [String c EmptyString]
  end.

(** [s.split(sep)] for a non-empty separator: the scan goes left to right,
    [skip] counts the characters of a matched separator still to pass. *)
Fixpoint split_go (sep : string) (skip : nat) (s : string) : list string :=
  match s with
  | EmptyString => [EmptyString]
  | String c s' =>
      match skip with
      | S k => split_go sep k s'
      | O =>
          if String.prefix sep s
          then EmptyString :: split_go sep (String.length sep - 1) s'
          else cons_head c (split_go sep 0 s')
      end
  end.

Definition split (sep s : string) : list string := split_go sep 0 s.

(** [sep.join(l)]. *)
Fixpoint join (sep : string) (l : list string) : string :=
  match l with
  | [] => EmptyString
  | [x] => x
  | x :: rest => x +:+ sep +:+ join sep rest
  end.

(** [s[:n]]. *)
Definition take_str (n : nat) (s : string) : string := String.substring 0 n s.

(** [str(n)] for an integer. *)
Definition str_of_int (n : Z) : string := NilZero.string_of_int (Z.to_int n).

(** *** [repr(s)]

    The quote is the apostrophe, or the double quote for a string with an
    apostrophe and no double quote; the quote and the backslash are
    escaped, tab, line feed and carriage return are written [\t], [\n] and
    [\r], and every other character that is not printable is written
    [\xhh]. *)

Definition double_quote : ascii := "034"%char.
Definition backslash : ascii := "092"%char.

Definition is_printable (c : ascii) : bool :=
  let n := code c in
  negb ((n <? 32) || ((127 <=? n) && (n <=? 160)) || (n =? 173))%N.

Definition hex_digit (n : N) : ascii :=
  if (n <? 10)%N then ascii_of_N (48 + n) else ascii_of_N (87 + n).

Definition repr_char (quote c : ascii) : string :=
  if Ascii.eqb c quote || Ascii.eqb c backslash then String backslash (String c EmptyString)
  else if (code c =? 9)%N then String backslash (String "t" EmptyString)
  else if (code c =? 10)%N then String backslash (String "n" EmptyString)
  else if (code c =? 13)%N then String backslash (String "r" EmptyString)
  else if is_printable c then String c EmptyString
  else String backslash (String "x" (String (hex_digit (code c / 16))
                                       (String (hex_digit (code c mod 16)) EmptyString))).

Fixpoint repr_body (quote : ascii) (s : string) : string :=
  match s with
  | EmptyString => String quote EmptyString
  | String c s' => String.append (repr_char quote c) (repr_body quote s')
  end.

Fixpoint has_char (k : ascii) (s : string) : bool :=
  match s with
  | EmptyString => false
  | String c s' => Ascii.eqb k c || has_char k s'
  end.

Definition repr (s : string) : string :=
  let quote :=
    if has_char "'" s && negb (has_char double_quote s) then double_quote else "'"%char in
  String quote (repr_body quote s).

(** *** [int(s)] on a string, base ten

    White space around the number is dropped, one sign is accepted, and
    single underscores may separate digits.  The white space is that of
    the C locale, and the two spaces of Latin-1 beyond ASCII, which are
    turned into blanks first; the separators 28 to 31 are not part of it.
    A number of more than 4300 digits is refused. *)

Definition is_int_space (c : ascii) : bool :=
  let n := code c in
  (((9 <=? n) && (n <=? 13)) || (n =? 32) || (n =? 133) || (n =? 160))%N.

(** The run of digits and underscores at the head of [s]: its value, the
    number of its digits and what follows it; [None] for two underscores
    in a row or an underscore at its end. *)
Fixpoint int_scan (acc : Z) (digits : nat) (prev_underscore : bool) (s : string)
  : option (Z * nat * string) :=
  match s with
  | EmptyString => if prev_underscore then None else Some (acc, digits, s)
  | String c s' =>
      if is_digit c then int_scan (10 * acc + digit_val c) (S digits) false s'
      else if Ascii.eqb c "_" then
             if prev_underscore then None else int_scan acc digits true s'
      else if prev_underscore then None else Some (acc, digits, s)
  end.

Definition max_str_digits : nat := 4300.

Definition invalid_literal (s : string) : Exc :=
  mkExc ValueError ("invalid literal for int() with base 10: " +:+ take_str 200 (repr s)).

Definition exceeds_limit (digits : nat) : Exc :=
  mkExc ValueError
    ("Exceeds the limit (4300 digits) for integer string conversion: value has "
     +:+ str_of_int (Z.of_nat digits)
     +:+ " digits; use sys.set_int_max_str_digits() to increase the limit").

(** What [int] does with [number], the text after the white space and the
    sign. *)
Definition int_after_sign (s number : string) (negative : bool) : Res Z :=
  if String.prefix "_" number then inl (invalid_literal s)
  else
    match int_scan 0 0 false number with
    | None => inl (invalid_literal s)
    | Some (n, digits, rest) =>
        if (max_str_digits <? digits)%nat then inl (exceeds_limit digits)
        else if (digits =? 0)%nat then inl (invalid_literal s)
        else
          match lstrip_by is_int_space rest with
          | EmptyString => inr (if negative then - n else n)
          | String _ _ => inl (invalid_literal s)
          end
    end.

Definition int_of_str (s : string) : Res Z :=
  match lstrip_by is_int_space s with
  | String c r =>
      if Ascii.eqb c "+" then int_after_sign s r false
      else if Ascii.eqb c "-" then int_after_sign s r true
      else int_after_sign s (String c r) false
  | EmptyString => inl (invalid_literal s)
  end.

End Py.

Import Py.

(** A dictionary with string keys. *)
Abbreviation Entry := (gmap string Value).

(** ** Parsed pages

    [Card] is the tag of one listing card, [Soup] a parsed page.  Each field
    lists, in document order, the elements one selector of the program
    matches, reduced to the texts and attributes the program reads. *)

Record Card := {
  (** [.c-card__link]: text and [href] attribute *)
  card_links : list (string * option string);
  (** [.app-author-list]: stripped texts of its [span[itemprop="name"]] *)
  card_author_lists : list (list string);
  (** [.c-meta__type]: text *)
  card_types : list string;
  (** [time]: [datetime] attribute *)
  card_times : list (option string)
}.

Record Soup := {
  (** [.app-article-list-row__item] *)
  sections : list Card;
  (** [span[class="c-bibliographic-information__value"]]: stripped text *)
  bib_values : list string;
  (** [.c-article-metrics-bar__wrapper]: texts of its
      [p[class="c-article-metrics-bar__count"]] *)
  metrics_wrappers : list (list string);
  (** [li[class="c-bibliographic-information__list-item"]]: text *)
  bib_items : list string;
  (** [p[class="c-article-info-details"]]: texts of its
      [a[data-test="journal-link"]] *)
  info_details : list (list string);
  (** [.c-article-author-list]: stripped texts of its
      [a[data-test="author-name"]] *)
  author_lists : list (list string);
  (** [.c-article-author-list__item]: [href] attributes of its
      [a[class="js-orcid"]] *)
  author_items : list (list (option string))
}.

(** [tag[attr]]. *)
Definition attr (name : string) (a : option string) : Res string :=
  match a with
  | Some v => inr v
  | None => raise KeyError ("'" +:+ name +:+ "'")
  end.

(** ** src/sitelogic/Nature.py *)

Module Nature.

Definition basehref : string := "https://www.nature.com".

Definition title (el : Card) : Res string :=
  bindR (first (card_links el)) (fun a => inr (fst a)).

Definition title_link (el : Card) : Res string :=
  bindR (first (card_links el)) (fun a =>
  bindR (attr "href" (snd a)) (fun h => inr (basehref +:+ h))).

Definition authors (el : Card) : Res (list string) :=
  first (card_author_lists el).

Definition article_type (el : Card) : Res string :=
  first (card_types el).

Definition date_published (el : Card) : Res string :=
  bindR (first (card_times el)) (attr "datetime").

End Nature.

(** ** [datetime.strptime(s, "%d %B %Y")] and [strftime("%Y-%m-%d")]

    The standard library's parser, for this one format: a day of one or two
    digits, white space, an English month name in any letter case, white
    space, a year of four digits, and nothing after it.  The parsed triple
    must be a date of the calendar. *)

Module Datetime.

Record date := mkDate { year : Z; month : Z; day : Z }.

Definition month_names : list string :=
  [ "january"; "february"; "march"; "april"; "may"; "june"; "july";
    "august"; "september"; "october"; "november"; "december" ].

Definition is_leap (y : Z) : bool :=
  ((y mod 4 =? 0) && negb (y mod 100 =? 0)) || (y mod 400 =? 0).

Definition days_in_month (y m : Z) : Z :=
  if m =? 2 then (if is_leap y then 29 else 28)
  else if (m =? 4) || (m =? 6) || (m =? 9) || (m =? 11) then 30
  else 31.

Definition valid_date (y m d : Z) : bool :=
  (1 <=? y) && (y <=? 9999) && (1 <=? m) && (m <=? 12)
  && (1 <=? d) && (d <=? days_in_month y m).

Definition is_nonzero_digit (c : ascii) : bool := is_digit c && negb (Ascii.eqb c "0").

(** The day directive: [3[0-1]|[1-2]\d|0[1-9]|[1-9]| [1-9]]. *)
Definition two_digit_day (a b : ascii) : bool :=
  (Ascii.eqb a "3" && (Ascii.eqb b "0" || Ascii.eqb b "1"))
  || ((Ascii.eqb a "1" || Ascii.eqb a "2") && is_digit b)
  || (Ascii.eqb a "0" && is_nonzero_digit b).

Definition parse_day (s : string) : option (Z * string) :=
  match s with
  | String a r =>
      match r with
      | String b r' =>
          if two_digit_day a b then Some (10 * digit_val a + digit_val b, r')
          else if is_nonzero_digit a then Some (digit_val a, r)
          else if Ascii.eqb a " " && is_nonzero_digit b then Some (digit_val b, r')
          else None
      | EmptyString => if is_nonzero_digit a then Some (digit_val a, r) else None
      end
  | EmptyString => None
  end.

(** [\s+] *)
Definition skip_spaces1 (s : string) : option string :=
  match s with
  | String c r => if is_space c then Some (lstrip_by is_space r) else None
  | EmptyString => None
  end.

(** [p] is, up to letter case, a prefix of [s]; the rest of [s]. *)
Fixpoint strip_prefix_nocase (p s : string) : option string :=
  match p with
  | EmptyString => Some s
  | String a p' =>
      match s with
      | String b s' =>
          if Ascii.eqb (lower_char a) (lower_char b) then strip_prefix_nocase p' s' else None
      | EmptyString => None
      end
  end.

Fixpoint parse_month_from (m : Z) (names : list string) (s : string) : option (Z * string) :=
  match names with
  | [] => None
  | n :: rest =>
      match strip_prefix_nocase n s with
      | Some r => Some (m, r)
      | None => parse_month_from (m + 1) rest s
      end
  end.

Definition parse_month (s : string) : option (Z * string) :=
  parse_month_from 1 month_names s.

(** [\d\d\d\d] *)
Definition parse_year (s : string) : option (Z * string) :=
  match s with
  | String a (String b (String c (String d r))) =>
      if is_digit a && is_digit b && is_digit c && is_digit d
      then Some (1000 * digit_val a + 100 * digit_val b + 10 * digit_val c + digit_val d, r)
      else None
  | _ => None
  end.

Definition no_match (s : string) : Exc :=
  mkExc ValueError ("time data " +:+ repr s +:+ " does not match format '%d %B %Y'").

Definition strptime (s : string) : Res date :=
  match parse_day s with
  | None => inl (no_match s)
  | Some (d, r1) =>
  match skip_spaces1 r1 with
  | None => inl (no_match s)
  | Some r2 =>
  match parse_month r2 with
  | None => inl (no_match s)
  | Some (m, r3) =>
  match skip_spaces1 r3 with
  | None => inl (no_match s)
  | Some r4 =>
  match parse_year r4 with
  | None => inl (no_match s)
  | Some (y, rest) =>
      match rest with
      | String _ _ => raise ValueError ("unconverted data remains: " +:+ rest)
      | EmptyString =>
          if y <? 1 then raise ValueError ("year " +:+ str_of_int y +:+ " is out of range")
          else if valid_date y m d then inr (mkDate y m d)
          else raise ValueError "day is out of range for month"
      end
  end end end end end.

Definition digit_char (n : Z) : ascii := ascii_of_N (Z.to_N (n mod 10) + 48).

(** [n] in decimal, padded with zeros to [width] digits. *)
Fixpoint zero_padded (width : nat) (n : Z) : string :=
  match width with
  | O => EmptyString
  | S w => zero_padded w (n / 10) +:+ String (digit_char n) EmptyString
  end.

(** [%Y-%m-%d]: the month and the day take two digits; the year is
    written as the C library writes it, without leading zeros. *)
Definition strftime (dt : date) : string :=
  str_of_int (year dt) +:+ "-" +:+ zero_padded 2 (month dt) +:+ "-" +:+ zero_padded 2 (day dt).

End Datetime.

(** ** src/sitelogic/NatureArticle.py *)

Module NatureArticle.

Definition authors (soup : Soup) : Res (list string) :=
  first (author_lists soup).

Fixpoint orcid_id_items (items : list (list (option string))) : Res (list (option string)) :=
  match items with
  | [] => inr []
  | js_orcid :: rest =>
      match js_orcid with
      | a :: _ =>
          bindR (attr "href" a) (fun href =>
          bindR (last_elt (split "orcid.org/" href)) (fun o =>
          bindR (orcid_id_items rest) (fun ret => inr (Some o :: ret))))
      | [] =>
          bindR (orcid_id_items rest) (fun ret => inr (None :: ret))
      end
  end.

Definition orcid_id (soup : Soup) : Res (list (option string)) :=
  orcid_id_items (author_items soup).

Fixpoint doi_of (possible_doi : list string) : Res (option string) :=
  match possible_doi with
  | [] => inr None
  | pdoi :: rest =>
      if contains "doi.org" pdoi
      then bindR (last_elt (split "doi.org/" pdoi)) (fun d => inr (Some d))
      else doi_of rest
  end.

Definition doi (soup : Soup) : Res (option string) := doi_of (bib_values soup).

(** The number in front of a metrics label: lines 89-92. *)
Definition metrics_count (num_txt : string) : Res Z :=
  if endswith_char "k" num_txt
  then bindR (int_of_str (rstrip_char "k" num_txt)) (fun n => inr (n * 1000))
  else int_of_str num_txt.

Fixpoint metrics_loop (lis : list string) (metrics_data : Entry) : Res Entry :=
  match lis with
  | [] => inr metrics_data
  | li :: rest =>
      let txt_ls := split " " li in
      bindR (index txt_ls 0) (fun num_txt =>
      bindR (metrics_count num_txt) (fun num_int =>
      bindR (index txt_ls 1) (fun label =>
      metrics_loop rest (<[upper label := VInt num_int]> metrics_data))))
  end.

Definition metrics (soup : Soup) : Res Entry :=
  bindR (first (metrics_wrappers soup)) (fun wrapper => metrics_loop wrapper ∅).

Definition fields_desired : list string := ["Received"; "Accepted"; "Published"].

Definition in_fields (s : string) : bool :=
  existsb (String.eqb s) fields_desired.

Fixpoint dateList_loop (li_list : list string) (date_data : Entry) : Res Entry :=
  match li_list with
  | [] => inr date_data
  | li :: rest =>
      let txt_ls := split ":" li in
      bindR (index txt_ls 0) (fun field =>
      if in_fields field then
        bindR (index txt_ls 1) (fun raw =>
        let date_str := strip raw in
        bindR (Datetime.strptime date_str) (fun date_obj =>
        let formatted_date := Datetime.strftime date_obj in
        dateList_loop rest (<[upper field := VStr formatted_date]> date_data)))
      else dateList_loop rest date_data)
  end.

Definition dateList (soup : Soup) : Res Entry := dateList_loop (bib_items soup) ∅.

Definition journal (soup : Soup) : Res string :=
  bindR (first (info_details soup)) first.

End NatureArticle.

(** ** The database, the network and the console

    The program talks to three collaborators: the site it scrapes, the MySQL
    database behind [engine] (tables ARTICLES, AUTHORS, ARTICLES_AUTHORS) and
    the second connection [connector] used for TITLEWORDS.  [Event] lists
    the calls made to them; the machine state keeps their history. *)

Inductive TableName := ARTICLES | AUTHORS | ARTICLES_AUTHORS.

#[global] Instance TableName_eq_dec : EqDecision TableName.
Proof. solve_decision. Defined.

Inductive Event :=
| EvGet (url : string)                               (** [requests.get] *)
| EvBegin                                            (** entering [engine.begin()] *)
| EvCommit                                           (** leaving it normally *)
| EvRollback                                         (** leaving it by an exception *)
| EvSelect (t : TableName) (cond : list (string * Value))
| EvInsert (t : TableName) (entry : Entry)
| EvCursor                                           (** [connector.cursor()] *)
| EvCallProc (name : string) (args : list string)    (** [cursor.callproc] *)
| EvConnectorCommit.                                 (** [connector.commit()] *)

Record Column := { col_name : string; col_length : option nat }.

Record Table := mkTable { t_rows : list Entry; t_next_id : Z }.

Record Database := mkDatabase {
  db_ARTICLES : Table;
  db_AUTHORS : Table;
  db_ARTICLES_AUTHORS : Table
}.

Definition get_table (t : TableName) (d : Database) : Table :=
  match t with
  | ARTICLES => db_ARTICLES d
  | AUTHORS => db_AUTHORS d
  | ARTICLES_AUTHORS => db_ARTICLES_AUTHORS d
  end.

Definition set_table (t : TableName) (tb : Table) (d : Database) : Database :=
  match t with
  | ARTICLES => mkDatabase tb (db_AUTHORS d) (db_ARTICLES_AUTHORS d)
  | AUTHORS => mkDatabase (db_ARTICLES d) tb (db_ARTICLES_AUTHORS d)
  | ARTICLES_AUTHORS => mkDatabase (db_ARTICLES d) (db_AUTHORS d) tb
  end.

(** Modelled from the spec: the schema of the database is not part of the
    repository.  ARTICLES and AUTHORS are keyed by an automatically
    generated [ID]; ARTICLES_AUTHORS is a composite link. *)
Definition auto_id (t : TableName) : bool :=
  match t with
  | ARTICLES_AUTHORS => false
  | _ => true
  end.

Definition primary_key (t : TableName) : list string :=
  match t with
  | ARTICLES_AUTHORS => ["ARTICLE_ID"; "AUTHOR_ID"]
  | _ => ["ID"]
  end.

(** Modelled from the spec: what a successful INSERT does to a table, and the
    [inserted_primary_key] it reports.  A row without an [ID] receives the next
    generated one. *)
Definition insert_row (t : TableName) (entry : Entry) (tb : Table) : Table * list Value :=
  let row :=
    if auto_id t then
      match entry !! "ID" with
      | Some _ => entry
      | None => <["ID" := VInt (t_next_id tb)]> entry
      end
    else entry in
  let next :=
    if auto_id t then
      match row !! "ID" with
      | Some (VInt n) => Z.max (t_next_id tb) (n + 1)
      | _ => t_next_id tb
      end
    else t_next_id tb in
  (mkTable (t_rows tb ++ [row]) next,
   List.map (fun k => default VNone (row !! k)) (primary_key t)).

(** SQL [column = value]; against [None] the comparison is [IS NULL]. *)
Definition sql_eq (cell : option Value) (v : Value) : bool :=
  match v with
  | VNone => match cell with None | Some VNone => true | _ => false end
  | _ => bool_decide (cell = Some v)
  end.

Definition row_matches (cond : list (string * Value)) (row : Entry) : bool :=
  forallb (fun cv => sql_eq (row !! fst cv) (snd cv)) cond.

(** Modelled from the spec: the stored procedure AddOrIncrementWord
    inserts the word with count one or increments its count. *)
Definition AddOrIncrementWord (w : string) (tw : gmap string Z) : gmap string Z :=
  match tw !! w with
  | Some n => <[w := n + 1]> tw
  | None => <[w := 1]> tw
  end.

(** What the program cannot control: the pages the site serves, the
    database calls that fail, and the columns of the tables.  Both oracles
    see the history of calls so far.  The reflected table ARTICLES has the
    column DOI, which the program looks articles up by. *)
Record Env := {
  web : list Event -> string -> option Soup;
  db_raises : list Event -> Event -> bool;
  columns : TableName -> list Column;
  doi_column : In "DOI" (List.map col_name (columns ARTICLES))
}.

Record State := mkState {
  db : Database;                      (** the tables as [engine]'s connection sees them *)
  words : gmap string Z;              (** TITLEWORDS in [connector]'s session *)
  words_committed : gmap string Z;    (** TITLEWORDS at the last [connector.commit()] *)
  stdout : list string;               (** printed lines *)
  trace : list Event;                 (** calls made so far *)
  keepSeeking : bool;
  (** Two ghost records, read by the statements only: the listing pages
      fetched with the number of sections found on each, and the articles
      (page, index) whose second [try] block raised. *)
  pages_seen : list (Z * nat);
  failed_at : list (Z * nat)
}.

Definition set_db (d : Database) (st : State) : State :=
  mkState d (words st) (words_committed st) (stdout st) (trace st) (keepSeeking st)
    (pages_seen st) (failed_at st).
Definition set_words (w : gmap string Z) (st : State) : State :=
  mkState (db st) w (words_committed st) (stdout st) (trace st) (keepSeeking st)
    (pages_seen st) (failed_at st).
Definition commit_words (st : State) : State :=
  mkState (db st) (words st) (words st) (stdout st) (trace st) (keepSeeking st)
    (pages_seen st) (failed_at st).
Definition emit (line : string) (st : State) : State :=
  mkState (db st) (words st) (words_committed st) (stdout st ++ [line]) (trace st)
    (keepSeeking st) (pages_seen st) (failed_at st).
Definition log (ev : Event) (st : State) : State :=
  mkState (db st) (words st) (words_committed st) (stdout st) (trace st ++ [ev])
    (keepSeeking st) (pages_seen st) (failed_at st).
Definition set_keepSeeking (b : bool) (st : State) : State :=
  mkState (db st) (words st) (words_committed st) (stdout st) (trace st) b
    (pages_seen st) (failed_at st).
Definition note_failure (page_num : Z) (i : nat) (st : State) : State :=
  mkState (db st) (words st) (words_committed st) (stdout st) (trace st)
    (keepSeeking st) (pages_seen st) (failed_at st ++ [(page_num, i)]).

(** ** Computations that change the state and may raise *)

Definition M (A : Type) : Type := State -> State * Res A.

Definition ret {A} (a : A) : M A := fun st => (st, inr a).

Definition lift {A} (r : Res A) : M A := fun st => (st, r).

Definition bind {A B} (m : M A) (k : A -> M B) : M B :=
  fun st =>
    match m st with
    | (st', inl e) => (st', inl e)
    | (st', inr a) => k a st'
    end.

Notation "'let!' x ':=' m 'in' k" := (bind m (fun x => k))
  (at level 10, x pattern, m at level 100, k at level 200).

Definition print (line : string) : M unit := fun st => (emit line st, inr tt).

Section Program.

Variable env : Env.

(** A call to the database: it is recorded, and raises when the
    environment says so. *)
Definition db_call (ev : Event) : M unit :=
  fun st =>
    if db_raises env (trace st) ev
    then (log ev st, raise DatabaseError "database error")
    else (log ev st, inr tt).

(** [with engine.begin() as conn: body] *)
Definition with_transaction {A} (body : M A) : M A :=
  fun st =>
    match db_call EvBegin st with
    | (st0, inl e) => (st0, inl e)
    | (st0, inr _) =>
        match body st0 with
        | (st1, inl e) => (set_db (db st0) (log EvRollback st1), inl e)
        | (st1, inr a) =>
            match db_call EvCommit st1 with
            | (st2, inl e) => (set_db (db st0) st2, inl e)
            | (st2, inr _) => (st2, inr a)
            end
        end
    end.

(** [conn.execute(select(table.c.col).where(cond)).first()] *)
Definition select_first (t : TableName) (col : string) (cond : list (string * Value))
  : M (option Value) :=
  let! _ := db_call (EvSelect t cond) in
  fun st =>
    (st, inr (option_map (fun row => default VNone (row !! col))
                (List.find (row_matches cond) (t_rows (get_table t (db st)))))).

(** The keys of [entry] that name no column of the table. *)
Definition unconsumed (t : TableName) (entry : Entry) : list string :=
  List.filter
    (fun k => negb (existsb (String.eqb k) (List.map col_name (columns env t))))
    (List.map fst (map_to_list entry)).

(** [conn.execute(insert(table).values(entry))].  The statement is compiled
    first: a key that names no column of the table raises [CompileError],
    and nothing is sent.  (The message lists these keys, in an order that
    Python does not fix.) *)
Definition execute_insert (t : TableName) (entry : Entry) : M (list Value) :=
  match unconsumed t entry with
  | name :: names =>
      lift (raise CompileError ("Unconsumed column names: " +:+ join ", " (name :: names)))
  | [] =>
      let! _ := db_call (EvInsert t entry) in
      fun st =>
        let r := insert_row t entry (get_table t (db st)) in
        (set_db (set_table t (fst r) (db st)) st, inr (snd r))
  end.

(** ** src/util.py *)

Definition number_words : list string := ["FIRST"; "SECOND"; "THIRD"].

Definition getSingleAuthorDict (auth : string) : Res Entry :=
  let auth_split := split " " auth in
  let author_dict : Entry := <["FIRSTNAME" := VStr (join " " (drop_last auth_split))]> ∅ in
  bindR (last_elt auth_split) (fun l =>
  inr (<["LASTNAME" := VStr l]> author_dict)).

Fixpoint getAuthorDict_loop (j : nat) (authors : list string) (author_dict : Entry) : Res Entry :=
  match authors with
  | [] => inr author_dict
  | auth :: rest =>
      match number_words !! j with
      | None => inr author_dict
      | Some nw =>
          bindR (getSingleAuthorDict auth) (fun author_dict_temp =>
          bindR (index_key author_dict_temp "FIRSTNAME") (fun f =>
          bindR (index_key author_dict_temp "LASTNAME") (fun l =>
          getAuthorDict_loop (S j) rest
            (<[nw +:+ "_LASTNAME" := l]> (<[nw +:+ "_FIRSTNAME" := f]> author_dict)))))
      end
  end.

Definition getAuthorDict (authors : list string) : Res Entry :=
  getAuthorDict_loop 0 authors ∅.

Definition removeNones (dict_x : Entry) : Entry :=
  filter (fun kv => snd kv <> VStr "" /\ snd kv <> VNone) dict_x.

Definition truncate_value (col : Column) (val : Value) : Value :=
  match val, col_length col with
  | VStr s, Some (S n) => VStr (take_str (S n) s)
  | _, _ => val
  end.

Fixpoint truncateEntries_loop (cols : list Column) (entry new_entry : Entry) : Entry :=
  match cols with
  | [] => new_entry
  | col :: rest =>
      match entry !! col_name col with
      | Some val =>
          truncateEntries_loop rest entry (<[col_name col := truncate_value col val]> new_entry)
      | None => truncateEntries_loop rest entry new_entry
      end
  end.

Definition truncateEntries (entry : Entry) (t : TableName) : Entry :=
  truncateEntries_loop (columns env t) entry ∅.

Definition myInsert (entry : Entry) (t : TableName) (rm_nones trunc : bool) : M (list Value) :=
  let entry := if rm_nones then removeNones entry else entry in
  let entry := if trunc then truncateEntries entry t else entry in
  execute_insert t entry.

(** [hasattr(DB.c, field)]: the columns of a table by name. *)
Definition has_column (t : TableName) (field : string) : bool :=
  existsb (String.eqb field) (List.map col_name (columns env t)).

(** [util.elemInDB(elem, field, DB, conn)].  [getattr(DB.c, field)] comes
    first and raises [AttributeError(field)] when the table has no such
    column; nothing is sent to the database then. *)
Definition elemInDB (elem : Value) (field : string) (t : TableName) : M bool :=
  if has_column t field then
    let! select_first := select_first t field [(field, elem)] in
    ret (bool_decide (select_first <> None))
  else lift (raise AttributeError field).

(** [util.getSoup(url)] *)
Definition getSoup (url : string) : M Soup :=
  fun st =>
    match web env (trace st) url with
    | Some soup => (log (EvGet url) st, inr soup)
    | None => (log (EvGet url) st, raise RequestError "request failed")
    end.

(** ** download.py *)

Definition url_unformatted (page_num : Z) : string :=
  "https://www.nature.com/search?q=breast+cancer&order=relevance&page=" +:+ str_of_int page_num.

(** [dict_x.update(other)] *)
Definition update (dict_x other : Entry) : Entry := other ∪ dict_x.

(** What the first [try] block leaves behind for the second one. *)
Record Extracted := mkExtracted {
  articles_entry : Entry;
  authors_proper : list string;
  auth_proper_orcid : list (option string)
}.

(** Lines 163-167: the check on the DOI, in a transaction of its own. *)
Definition already_seen (doi : Value) : M bool :=
  with_transaction (
    let! seen := elemInDB doi "DOI" ARTICLES in
    if seen then let! _ := print "Already seen" in ret true
    else ret false).

(** Lines 144-161: what is read before the check on the DOI. *)
Definition extract_detail (el : Card) : M (Entry * Soup) :=
  let! title := lift (Nature.title el) in
  let articles_entry : Entry := <["TITLE" := VStr title]> ∅ in
  let! title_link := lift (Nature.title_link el) in
  let articles_entry := <["TITLE_LINK" := VStr title_link]> articles_entry in
  let! article_soup := getSoup title_link in
  let! doi := lift (NatureArticle.doi article_soup) in
  let articles_entry := <["DOI" := value_of_option doi]> articles_entry in
  let! metrics := lift (NatureArticle.metrics article_soup) in
  let articles_entry := update articles_entry metrics in
  let! dates := lift (NatureArticle.dateList article_soup) in
  let articles_entry := update articles_entry dates in
  let! journal := lift (NatureArticle.journal article_soup) in
  let articles_entry := <["JOURNAL" := VStr journal]> articles_entry in
  ret (articles_entry, article_soup).

(** Lines 170-183: what is read after it. *)
Definition extract_rest (el : Card) (articles_entry : Entry) (article_soup : Soup)
  : M Extracted :=
  let! article_type := lift (Nature.article_type el) in
  let articles_entry := <["ARTICLE_TYPE" := VStr article_type]> articles_entry in
  let! date_published := lift (Nature.date_published el) in
  let articles_entry := <["DATE_PUBLISHED" := VStr date_published]> articles_entry in
  let! authors := lift (Nature.authors el) in
  let! author_dict := lift (getAuthorDict authors) in
  let articles_entry := update articles_entry author_dict in
  let! authors_proper := lift (NatureArticle.authors article_soup) in
  let! auth_proper_orcid := lift (NatureArticle.orcid_id article_soup) in
  ret (mkExtracted articles_entry authors_proper auth_proper_orcid).

(** Lines 144-183, the body of the first [try]; [None] is the [continue]
    taken for an article that is already stored. *)
Definition extract (el : Card) : M (option Extracted) :=
  let! detail := extract_detail el in
  let! doi := lift (index_key (fst detail) "DOI") in
  let! seen := already_seen doi in
  if seen then ret None
  else
    let! x := extract_rest el (fst detail) (snd detail) in
    ret (Some x).

(** Lines 206-219: find the author by ORCID when there is one, else by name. *)
Definition find_author (auth_single_dict : Entry) (orcid : option string) : M (option Value) :=
  match orcid with
  | Some o => select_first AUTHORS "ID" [("ORCID", VStr o)]
  | None =>
      let! f := lift (index_key auth_single_dict "FIRSTNAME") in
      let! l := lift (index_key auth_single_dict "LASTNAME") in
      select_first AUTHORS "ID" [("FIRSTNAME", f); ("LASTNAME", l)]
  end.

(** Lines 204-228: the ID of the author, found or newly inserted. *)
Definition resolve_author (auth_single_dict : Entry) (orcid : option string) : M Value :=
  let auth_single_dict := <["ORCID" := value_of_option orcid]> auth_single_dict in
  let! select_first := find_author auth_single_dict orcid in
  match select_first with
  | None =>
      let! inserted_primary_key := myInsert auth_single_dict AUTHORS true true in
      if bool_decide (List.length inserted_primary_key = 1%nat)
      then lift (index inserted_primary_key 0)
      else lift (raise AssertionError "")
  | Some auth_id => ret auth_id
  end.

(** Lines 230-234. *)
Definition link_author (article_id_last auth_id : Value) (auth_id_seen : gset Value)
  : M (gset Value) :=
  if bool_decide (auth_id ∈ auth_id_seen) then ret auth_id_seen
  else
    let! _ := myInsert (<["AUTHOR_ID" := auth_id]> (<["ARTICLE_ID" := article_id_last]> ∅))
                ARTICLES_AUTHORS false false in
    ret ({[auth_id]} ∪ auth_id_seen).

(** Lines 199-234: the body of the loop over [authors_proper]. *)
Definition author_step (article_id_last : Value) (orcids : list (option string))
    (auth_i : nat) (auth : string) (auth_id_seen : gset Value) : M (gset Value) :=
  let! auth_single_dict := lift (getSingleAuthorDict auth) in
  let! firstname := lift (index_key auth_single_dict "FIRSTNAME") in
  if bool_decide (firstname = VStr "") then ret auth_id_seen
  else
    let! orcid := lift (index orcids auth_i) in
    let! auth_id := resolve_author auth_single_dict orcid in
    link_author article_id_last auth_id auth_id_seen.

Fixpoint author_loop (article_id_last : Value) (orcids : list (option string))
    (auth_i : nat) (auths : list string) (auth_id_seen : gset Value) : M (gset Value) :=
  match auths with
  | [] => ret auth_id_seen
  | auth :: rest =>
      let! seen := author_step article_id_last orcids auth_i auth auth_id_seen in
      author_loop article_id_last orcids (S auth_i) rest seen
  end.

(** Lines 193-234: the transaction that stores the article, its authors and
    their links. *)
Definition store_article (x : Extracted) : M (gset Value) :=
  with_transaction (
    let! inserted_primary_key := myInsert (articles_entry x) ARTICLES true true in
    let! article_id_last := lift (index inserted_primary_key 0) in
    author_loop article_id_last (auth_proper_orcid x) 0 (authors_proper x) ∅).

(** Line 239: [re.sub(r'[^a-zA-Z0-9]', ' ', title).split(' ')] *)
Definition blank_non_alnum (c : ascii) : ascii := if is_alnum c then c else " "%char.

Definition cleaned_title (title : string) : list string :=
  split " " (map_str blank_non_alnum title).

Definition callproc_word (w : string) : M unit :=
  let! _ := db_call (EvCallProc "AddOrIncrementWord" [lower w]) in
  fun st => (set_words (AddOrIncrementWord (lower w) (words st)) st, inr tt).

Fixpoint word_loop (ws : list string) : M unit :=
  match ws with
  | [] => ret tt
  | w :: rest => let! _ := callproc_word w in word_loop rest
  end.

(** [type(v).__name__] *)
Definition type_name (v : Value) : string :=
  match v with
  | VStr _ => "str"
  | VInt _ => "int"
  | VNone => "NoneType"
  end.

(** The title as [re.sub] takes it: a string, or [TypeError]. *)
Definition title_of (entry : Entry) : Res string :=
  bindR (index_key entry "TITLE") (fun v =>
  match v with
  | VStr s => inr s
  | _ => raise TypeError
           ("expected string or bytes-like object, got '" +:+ type_name v +:+ "'")
  end).

(** Lines 238-243. *)
Definition count_title_words (x : Extracted) : M unit :=
  let! _ := db_call EvCursor in
  let! title := lift (title_of (articles_entry x)) in
  let! _ := word_loop (cleaned_title title) in
  let! _ := db_call EvConnectorCommit in
  fun st => (commit_words st, inr tt).

(** Lines 193-243, the body of the second [try]. *)
Definition insert_stage (x : Extracted) : M unit :=
  let! _ := store_article x in
  count_title_words x.

Inductive Signal := Continue | Break.

(** Lines 245-252. *)
Definition insert_failed (page_num : Z) (i : nat) (x : Extracted) (e : Exc) (st : State) : State :=
  let st := emit (str_of_int page_num) st in
  let st := emit (str_of_int (Z.of_nat i)) st in
  let st := emit (str_of_value (default VNone (articles_entry x !! "TITLE"))) st in
  let st := set_keepSeeking false (note_failure page_num i st) in
  emit (exc_msg e) st.

(** Lines 132-252: one turn of the loop over the cards of a page. *)
Definition process_article (page_num : Z) (i : nat) (el : Card) (st : State) : State * Signal :=
  let st := emit ("Article: " +:+ str_of_int (Z.of_nat i)) st in
  if (1000 <=? i)%nat
  then (emit ("Reached " +:+ str_of_int (Z.of_nat i) +:+ " articles...") st, Break)
  else
    match extract el st with
    | (st1, inl e) =>
        if is_IndexError e then (st1, Continue)
        else (emit (exc_msg e) st1, Break)
    | (st1, inr None) => (st1, Continue)
    | (st1, inr (Some x)) =>
        match insert_stage x st1 with
        | (st2, inr _) => (st2, Continue)
        | (st2, inl e) => (insert_failed page_num i x e st2, Break)
        end
    end.

(** Lines 131-252: [for i, el in enumerate(sections_to_read)]. *)
Fixpoint for_articles (page_num : Z) (i : nat) (els : list Card) (st : State) : State :=
  match els with
  | [] => st
  | el :: rest =>
      match process_article page_num i el st with
      | (st', Continue) => for_articles page_num (S i) rest st'
      | (st', Break) => st'
      end
  end.






End Program.

(** * Facts about the string functions *)

Section StringFacts.

Fixpoint all_chars (q : ascii -> bool) (s : string) : bool :=
  match s with
  | EmptyString => true
  | String c s' => q c && all_chars q s'
  end.

Lemma append_cons (c : ascii) (s t : string) : String c s +:+ t = String c (s +:+ t).
Proof. reflexivity. Qed.

Lemma append_empty_l (t : string) : "" +:+ t = t.
Proof. reflexivity. Qed.

Lemma append_empty_r (s : string) : s +:+ "" = s.
Proof.
  induction s as [|c s IH]; [reflexivity|]. now rewrite append_cons, IH.
Qed.

Lemma append_assoc (a b c : string) : (a +:+ b) +:+ c = a +:+ (b +:+ c).
Proof.
  induction a as [|x a IH]; [reflexivity|]. now rewrite !append_cons, IH.
Qed.

Lemma rev_str_rev_str (s acc acc2 : string) :
  rev_str acc (rev_str acc2 s) = rev_str (s +:+ acc) acc2.
Proof.
  revert acc acc2. induction s as [|c s IH]; intros acc acc2.
  - reflexivity.
  - rewrite append_cons. simpl. now rewrite IH.
Qed.

Lemma str_reverse_involutive (s : string) : reverse (reverse s) = s.
Proof. unfold reverse. rewrite rev_str_rev_str. simpl. apply append_empty_r. Qed.

Lemma rev_str_append (s t acc : string) :
  rev_str acc (s +:+ t) = rev_str (rev_str acc s) t.
Proof.
  revert acc. induction s as [|c s IH]; intros acc; [reflexivity|].
  rewrite append_cons. simpl. apply IH.
Qed.

Lemma all_chars_rev_str q (s acc : string) :
  all_chars q s = true -> all_chars q acc = true -> all_chars q (rev_str acc s) = true.
Proof.
  revert acc. induction s as [|c s IH]; intros acc Hs Hacc; simpl in *; [assumption|].
  apply andb_prop in Hs as [Hc Hs]. apply IH; [assumption|]. simpl. now rewrite Hc.
Qed.

Lemma all_chars_reverse q (s : string) :
  all_chars q s = true -> all_chars q (reverse s) = true.
Proof. intros H. now apply all_chars_rev_str. Qed.

Lemma reverse_nonempty (c : ascii) (s : string) : reverse (String c s) <> "".
Proof.
  intros H. apply (f_equal reverse) in H. rewrite str_reverse_involutive in H. discriminate.
Qed.

(** Stripping leaves alone a string none of whose characters is stripped. *)
Lemma lstrip_by_none p q (s : string) :
  (forall c, q c = true -> p c = false) -> all_chars q s = true -> lstrip_by p s = s.
Proof.
  intros Hpq. destruct s as [|c s]; simpl; [reflexivity|].
  intros H. apply andb_prop in H as [Hc _]. now rewrite (Hpq c Hc).
Qed.

Lemma rstrip_by_none p q (s : string) :
  (forall c, q c = true -> p c = false) -> all_chars q s = true -> rstrip_by p s = s.
Proof.
  intros Hpq H. unfold rstrip_by.
  rewrite (lstrip_by_none p q); [apply str_reverse_involutive | assumption | now apply all_chars_reverse].
Qed.

Lemma digit_not_space (c : ascii) : is_digit c = true -> is_space c = false.
Proof. destruct c as [[] [] [] [] [] [] [] []]; intros H; try discriminate H; reflexivity. Qed.

Lemma digit_not_k (c : ascii) : is_digit c = true -> Ascii.eqb "k" c = false.
Proof. destruct c as [[] [] [] [] [] [] [] []]; intros H; try discriminate H; reflexivity. Qed.

Lemma digit_not_int_space (c : ascii) : is_digit c = true -> is_int_space c = false.
Proof. destruct c as [[] [] [] [] [] [] [] []]; intros H; try discriminate H; reflexivity. Qed.

(** The value of a string of digits, most significant digit first. *)
Fixpoint decimal_value (acc : Z) (ds : string) : Z :=
  match ds with
  | EmptyString => acc
  | String c r => decimal_value (10 * acc + digit_val c) r
  end.

Lemma digit_not_underscore (c : ascii) : is_digit c = true -> Ascii.eqb c "_" = false.
Proof. destruct c as [[] [] [] [] [] [] [] []]; intros H; try discriminate H; reflexivity. Qed.

Lemma digit_not_sign (c : ascii) :
  is_digit c = true -> Ascii.eqb c "+" = false /\ Ascii.eqb c "-" = false.
Proof.
  destruct c as [[] [] [] [] [] [] [] []]; intros H; try discriminate H; split; reflexivity.
Qed.

End StringFacts.

(** * Dates *)

Section DateFacts.

Import Datetime.

(** The twelve month names as [%B] prints them. *)
Definition month_name (m : Z) : string :=
  nth (Z.to_nat (m - 1))
    [ "January"; "February"; "March"; "April"; "May"; "June"; "July";
      "August"; "September"; "October"; "November"; "December" ] "".

(** A date written day first, as in the bibliographic list: [14 March 2023]. *)
Definition date_text (y m d : Z) : string :=
  zero_padded 2 d +:+ " " +:+ month_name m +:+ " " +:+ zero_padded 4 y.


Lemma digit_char_spec (n : Z) :
  is_digit (digit_char n) = true /\ digit_val (digit_char n) = n mod 10
  /\ is_space (digit_char n) = false /\ Ascii.eqb (digit_char n) ":" = false
  /\ Ascii.eqb (digit_char n) " " = false.
Proof.
  unfold digit_char. pose proof (Z.mod_pos_bound n 10 ltac:(lia)) as Hk.
  set (k := n mod 10) in *.
  assert (Hc : k = 0 \/ k = 1 \/ k = 2 \/ k = 3 \/ k = 4 \/ k = 5 \/ k = 6 \/ k = 7
               \/ k = 8 \/ k = 9) by lia.
  clearbody k. repeat (destruct Hc as [-> | Hc]); try subst k; repeat split.
Qed.

Lemma zero_padded_2 (n : Z) :
  zero_padded 2 n = String (digit_char (n / 10)) (String (digit_char n) "").
Proof. reflexivity. Qed.

Lemma zero_padded_4 (n : Z) :
  zero_padded 4 n =
    String (digit_char (n / 10 / 10 / 10)) (String (digit_char (n / 10 / 10))
      (String (digit_char (n / 10)) (String (digit_char n) ""))).
Proof. reflexivity. Qed.

Lemma forallb_range (P : Z -> bool) (lo : Z) (n : nat) :
  forallb P (List.map (fun i => lo + Z.of_nat i) (seq 0 n)) = true ->
  forall z, lo <= z < lo + Z.of_nat n -> P z = true.
Proof.
  intros H z Hz. rewrite forallb_forall in H. apply H.
  apply in_map_iff. exists (Z.to_nat (z - lo)). split; [lia|].
  apply in_seq. lia.
Qed.

Lemma day_digits (d : Z) :
  1 <= d <= 31 ->
  two_digit_day (digit_char (d / 10)) (digit_char d) = true
  /\ 10 * digit_val (digit_char (d / 10)) + digit_val (digit_char d) = d.
Proof.
  intros Hd.
  pose (P := fun d => two_digit_day (digit_char (d / 10)) (digit_char d)
                      && (10 * digit_val (digit_char (d / 10)) + digit_val (digit_char d) =? d)).
  assert (H : P d = true).
  { apply (forallb_range P 1 31); [vm_compute; reflexivity | lia]. }
  unfold P in H. apply andb_prop in H as [H1 H2]. split; [assumption | lia].
Qed.

Lemma parse_day_padded (d : Z) (r : string) :
  1 <= d <= 31 -> parse_day (zero_padded 2 d +:+ r) = Some (d, r).
Proof.
  intros Hd. destruct (day_digits d Hd) as [H1 H2].
  rewrite zero_padded_2. cbn [parse_day String.append]. unfold parse_day.
  change (String (digit_char (d / 10)) (String (digit_char d) "") +:+ r)
    with (String (digit_char (d / 10)) (String (digit_char d) r)).
  cbv beta iota. rewrite H1, H2. reflexivity.
Qed.

Lemma parse_month_name (m : Z) (r : string) :
  1 <= m <= 12 -> parse_month (month_name m +:+ r) = Some (m, r).
Proof.
  intros Hm.
  assert (Hc : m = 1 \/ m = 2 \/ m = 3 \/ m = 4 \/ m = 5 \/ m = 6 \/ m = 7 \/ m = 8
               \/ m = 9 \/ m = 10 \/ m = 11 \/ m = 12) by lia.
  repeat (destruct Hc as [-> | Hc]); try subst m; reflexivity.
Qed.

Lemma skip_space_before_nonspace (c : ascii) (r : string) :
  is_space c = false -> skip_spaces1 (" " +:+ String c r) = Some (String c r).
Proof.
  intros H. change (" " +:+ String c r) with (String " " (String c r)).
  unfold skip_spaces1. change (is_space " ") with true. cbn [lstrip_by]. now rewrite H.
Qed.

Lemma year_digits (y : Z) :
  0 <= y <= 9999 ->
  1000 * ((y / 10 / 10 / 10) mod 10) + 100 * ((y / 10 / 10) mod 10)
    + 10 * ((y / 10) mod 10) + y mod 10 = y.
Proof. intros Hy. Z.div_mod_to_equations. lia. Qed.

Lemma parse_year_padded (y : Z) :
  0 <= y <= 9999 -> parse_year (zero_padded 4 y) = Some (y, "").
Proof.
  intros Hy. rewrite zero_padded_4. unfold parse_year.
  destruct (digit_char_spec (y / 10 / 10 / 10)) as (Ha & Va & _).
  destruct (digit_char_spec (y / 10 / 10)) as (Hb & Vb & _).
  destruct (digit_char_spec (y / 10)) as (Hc & Vc & _).
  destruct (digit_char_spec y) as (Hd & Vd & _).
  rewrite Ha, Hb, Hc, Hd, Va, Vb, Vc, Vd. cbn [andb].
  now rewrite year_digits.
Qed.




End DateFacts.

(** * Splitting on one character *)

Section SplitFacts.

Lemma all_chars_append q (a b : string) :
  all_chars q (a +:+ b) = all_chars q a && all_chars q b.
Proof.
  induction a as [|c a IH]; [reflexivity|].
  rewrite append_cons. simpl. now rewrite IH, andb_assoc.
Qed.

Lemma split_go_char (c x : ascii) (s : string) :
  split_go (String c "") 0 (String x s) =
    if Ascii.eqb c x then "" :: split_go (String c "") 0 s
    else cons_head x (split_go (String c "") 0 s).
Proof.
  cbn [split_go String.prefix String.length Nat.sub].
  destruct (Ascii.eqb_spec c x) as [->|Hne].
  - destruct (ascii_dec x x) as [_|Hn]; [|congruence]. now destruct s.
  - destruct (ascii_dec c x) as [He|_]; [congruence | reflexivity].
Qed.

(** Without the separator in it, a string is its own single piece. *)
Lemma split_absent (c : ascii) (s : string) :
  all_chars (fun x => negb (Ascii.eqb c x)) s = true -> split (String c "") s = [s].
Proof.
  unfold split. induction s as [|x s IH]; intros H; [reflexivity|].
  simpl in H. apply andb_prop in H as [Hx Hs].
  rewrite split_go_char. apply negb_true_iff in Hx. rewrite Hx, (IH Hs). reflexivity.
Qed.

(** The first separator cuts off the first piece. *)
Lemma split_first (c : ascii) (a b : string) :
  all_chars (fun x => negb (Ascii.eqb c x)) a = true ->
  split (String c "") (a +:+ String c b) = a :: split (String c "") b.
Proof.
  unfold split. induction a as [|x a IH]; intros H.
  - rewrite append_empty_l, split_go_char, Ascii.eqb_refl. reflexivity.
  - simpl in H. apply andb_prop in H as [Hx Ha].
    rewrite append_cons, split_go_char. apply negb_true_iff in Hx. rewrite Hx, (IH Ha).
    reflexivity.
Qed.

End SplitFacts.

(** * The date normaliser *)

Section DateList.

Import Datetime.

Lemma month_name_chars (m : Z) :
  1 <= m <= 12 ->
  all_chars (fun x => negb (Ascii.eqb ":" x)) (month_name m) = true.
Proof.
  intros Hm.
  assert (Hc : m = 1 \/ m = 2 \/ m = 3 \/ m = 4 \/ m = 5 \/ m = 6 \/ m = 7 \/ m = 8
               \/ m = 9 \/ m = 10 \/ m = 11 \/ m = 12) by lia.
  repeat (destruct Hc as [-> | Hc]); try subst m; reflexivity.
Qed.

Lemma digit_char_not_colon (n : Z) : negb (Ascii.eqb ":" (digit_char n)) = true.
Proof.
  destruct (digit_char_spec n) as (_ & _ & _ & H & _).
  now rewrite Ascii.eqb_sym, H.
Qed.

Lemma date_text_no_colon (y m d : Z) :
  1 <= m <= 12 ->
  all_chars (fun x => negb (Ascii.eqb ":" x)) (" " +:+ date_text y m d) = true.
Proof.
  intros Hm. unfold date_text.
  rewrite !all_chars_append, zero_padded_2, zero_padded_4, (month_name_chars m Hm).
  cbn [all_chars]. now rewrite !digit_char_not_colon.
Qed.

Lemma strip_date_text (y m d : Z) : strip (" " +:+ date_text y m d) = date_text y m d.
Proof.
  unfold strip.
  destruct (digit_char_spec (d / 10)) as (_ & _ & Hd & _).
  destruct (digit_char_spec y) as (_ & _ & Hy & _).
  assert (Hhead : exists t, date_text y m d = String (digit_char (d / 10)) t).
  { unfold date_text. rewrite zero_padded_2. eexists. reflexivity. }
  assert (Hrev : exists r, reverse (date_text y m d) = String (digit_char y) r).
  { unfold date_text, reverse. rewrite zero_padded_4.
    rewrite !rev_str_append. cbn [rev_str]. eauto. }
  destruct Hhead as [t Ht]. destruct Hrev as [r Hr].
  change (" " +:+ date_text y m d) with (String " " (date_text y m d)).
  cbn [lstrip_by]. change (is_space " ") with true. cbv iota.
  rewrite Ht at 1. cbn [lstrip_by]. rewrite Hd, <- Ht.
  unfold rstrip_by. rewrite Hr. cbn [lstrip_by]. rewrite Hy, <- Hr.
  apply str_reverse_involutive.
Qed.

End DateList.

Section DateListClaim.

Import Datetime.

Lemma split_date_item (y m d : Z) (field : string) :
  1 <= m <= 12 -> In field NatureArticle.fields_desired ->
  split ":" (field +:+ ": " +:+ date_text y m d) = [field; " " +:+ date_text y m d].
Proof.
  intros Hm Hf.
  change (field +:+ ": " +:+ date_text y m d)
    with (field +:+ String ":" (" " +:+ date_text y m d)).
  rewrite split_first.
  - now rewrite (split_absent _ _ (date_text_no_colon y m d Hm)).
  - cbn in Hf. destruct Hf as [<- | [<- | [<- | []]]]; reflexivity.
Qed.

End DateListClaim.

(** * The count in front of a metrics label *)

Section MetricsCount.

(** C2 (as stated, refuted).  The count [1.2k] does not parse: [int] rejects
    the decimal point, and the whole of [metrics] raises with it. *)
Lemma metrics_count_decimal_point_raises :
  NatureArticle.metrics_count "1.2k"
    = raise ValueError "invalid literal for int() with base 10: '1.2'"
  /\ forall soup, metrics_wrappers soup = [["1.2k Citations"]] ->
       NatureArticle.metrics soup
         = raise ValueError "invalid literal for int() with base 10: '1.2'".
Proof.
  split; [reflexivity|]. intros soup H. unfold NatureArticle.metrics. now rewrite H.
Qed.

(** *** The whole numbers [int] reads

    White space, a sign, groups of digits separated by single underscores,
    white space. *)

Inductive Sign := NoSign | Plus | Minus.

Definition sign_text (sg : Sign) : string :=
  match sg with
  | NoSign => ""
  | Plus => "+"
  | Minus => "-"
  end.

Record Numeral := {
  n_before : string;
  n_sign : Sign;
  n_groups : list string;
  n_after : string
}.

Definition numeral_text (nm : Numeral) : string :=
  n_before nm +:+ sign_text (n_sign nm) +:+ join "_" (n_groups nm) +:+ n_after nm.

Definition digit_group (g : string) : Prop := g <> "" /\ all_chars is_digit g = true.

Definition numeral_ok (nm : Numeral) : Prop :=
  all_chars is_int_space (n_before nm) = true
  /\ all_chars is_int_space (n_after nm) = true
  /\ n_groups nm <> []
  /\ List.Forall digit_group (n_groups nm).

Definition groups_value (groups : list string) : Z := fold_left decimal_value groups 0.

Definition numeral_value (nm : Numeral) : Z :=
  match n_sign nm with
  | Minus => - groups_value (n_groups nm)
  | _ => groups_value (n_groups nm)
  end.

Definition numeral_digits (nm : Numeral) : nat :=
  fold_left (fun n g => (n + String.length g)%nat) (n_groups nm) 0%nat.

(** [j] letters k. *)
Fixpoint ks (j : nat) : string :=
  match j with
  | O => ""
  | S j' => String "k" (ks j')
  end.

Lemma lstrip_by_all p (s t : string) :
  all_chars p s = true -> lstrip_by p (s +:+ t) = lstrip_by p t.
Proof.
  induction s as [|c s IH]; [reflexivity|]. cbn [all_chars]. intros H.
  apply andb_prop in H as [Hc Hs]. rewrite append_cons. cbn [lstrip_by].
  now rewrite Hc, (IH Hs).
Qed.

Lemma lstrip_by_spaces (s : string) :
  all_chars is_int_space s = true -> lstrip_by is_int_space s = "".
Proof.
  intros H. rewrite <- (append_empty_r s). now rewrite (lstrip_by_all _ _ _ H).
Qed.

Lemma int_scan_digits_then (g rest : string) :
  all_chars is_digit g = true ->
  forall acc n,
  int_scan acc n false (g +:+ rest)
  = int_scan (decimal_value acc g) (n + String.length g) false rest.
Proof.
  induction g as [|d g IH]; intros Hg acc n.
  - cbn. now rewrite Nat.add_0_r.
  - cbn [all_chars] in Hg. apply andb_prop in Hg as [Hd Hg].
    rewrite append_cons. cbn [int_scan decimal_value String.length]. rewrite Hd.
    rewrite (IH Hg). now rewrite Nat.add_succ_r.
Qed.

Lemma int_scan_group (g rest : string) :
  digit_group g ->
  forall acc n b,
  int_scan acc n b (g +:+ rest)
  = int_scan (decimal_value acc g) (n + String.length g) false rest.
Proof.
  intros [Hne Hd]. destruct g as [|c g]; [congruence|].
  cbn [all_chars] in Hd. apply andb_prop in Hd as [Hc Hg].
  intros acc n b. rewrite append_cons. cbn [int_scan decimal_value String.length]. rewrite Hc.
  rewrite (int_scan_digits_then g rest Hg). now rewrite Nat.add_succ_r.
Qed.

Lemma int_scan_space (acc : Z) (n : nat) (after : string) :
  all_chars is_int_space after = true ->
  int_scan acc n false after = Some (acc, n, after).
Proof.
  destruct after as [|c r]; [reflexivity|]. cbn [all_chars int_scan]. intros H.
  apply andb_prop in H as [Hc _].
  destruct c as [[] [] [] [] [] [] [] []]; try discriminate Hc; reflexivity.
Qed.

Lemma int_scan_groups (after : string) (groups : list string) :
  all_chars is_int_space after = true ->
  List.Forall digit_group groups -> groups <> [] ->
  forall acc n b,
  int_scan acc n b (join "_" groups +:+ after)
  = Some (fold_left decimal_value groups acc,
          fold_left (fun n g => (n + String.length g)%nat) groups n, after).
Proof.
  intros Hafter Hgroups. induction Hgroups as [|g groups Hg Hrest IH]; [congruence|].
  intros _ acc n b. destruct groups as [|g2 groups].
  - cbn [join fold_left]. rewrite (int_scan_group g after Hg). now apply int_scan_space.
  - change (join "_" (g :: g2 :: groups)) with (g +:+ "_" +:+ join "_" (g2 :: groups)).
    rewrite !append_assoc. rewrite (int_scan_group g _ Hg).
    change ("_" +:+ join "_" (g2 :: groups) +:+ after)
      with (String "_" (join "_" (g2 :: groups) +:+ after)).
    cbn [int_scan]. change (is_digit "_") with false. cbv iota.
    change (Ascii.eqb "_" "_") with true. cbv iota.
    cbn [fold_left]. apply IH. discriminate.
Qed.

Lemma group_head (g : string) :
  digit_group g -> exists c r, g = String c r /\ is_digit c = true.
Proof.
  intros [Hne Hd]. destruct g as [|c r]; [congruence|]. cbn [all_chars] in Hd.
  apply andb_prop in Hd as [Hc _]. eauto.
Qed.

(** [int] on the text of a whole number: its value, unless it has more
    than 4300 digits. *)
Lemma int_of_str_numeral (nm : Numeral) :
  numeral_ok nm ->
  int_of_str (numeral_text nm)
  = if (numeral_digits nm <=? max_str_digits)%nat then inr (numeral_value nm)
    else inl (exceeds_limit (numeral_digits nm)).
Proof.
  intros (Hb & Ha & Hne & Hg). unfold int_of_str, numeral_text.
  rewrite (lstrip_by_all _ _ _ Hb).
  assert (Hhead : exists c r, join "_" (n_groups nm) +:+ n_after nm = String c r
                              /\ is_digit c = true).
  { destruct (n_groups nm) as [|g groups]; [congruence|].
    inversion Hg as [|? ? Hg1 _]. destruct (group_head g Hg1) as (c & r & -> & Hc).
    destruct groups; cbn [join]; rewrite !append_cons; eauto. }
  destruct Hhead as (c & r & Hcr & Hc).
  destruct (digit_not_sign c Hc) as [Hplus Hminus].
  pose proof (digit_not_int_space c Hc) as Hsp.
  pose proof (digit_not_underscore c Hc) as Hus.
  assert (Htail : forall negative,
            int_after_sign (n_before nm +:+ sign_text (n_sign nm)
                            +:+ join "_" (n_groups nm) +:+ n_after nm)
              (join "_" (n_groups nm) +:+ n_after nm) negative
            = if (numeral_digits nm <=? max_str_digits)%nat
              then inr (if negative then - groups_value (n_groups nm)
                        else groups_value (n_groups nm))
              else inl (exceeds_limit (numeral_digits nm))).
  { intros negative. unfold int_after_sign.
    rewrite (int_scan_groups _ _ Ha Hg Hne 0 0%nat false).
    fold (numeral_digits nm). fold (groups_value (n_groups nm)).
    rewrite Hcr. cbn [String.prefix].
    destruct (ascii_dec "_" c) as [<-|_]; [discriminate Hc|].
    rewrite (lstrip_by_spaces _ Ha).
    assert (Hpos : (numeral_digits nm =? 0)%nat = false).
    { apply Nat.eqb_neq. unfold numeral_digits.
      destruct (n_groups nm) as [|g groups]; [congruence|]. cbn [fold_left].
      inversion Hg as [|? ? Hg1 _]. destruct (group_head g Hg1) as (c1 & r1 & -> & _).
      cbn [String.length]. clear.
      assert (H : forall l n, (n <= fold_left (fun n g => n + String.length g) l n)%nat).
      { induction l as [|x l IH]; intros n; cbn [fold_left]; [lia|].
        specialize (IH (n + String.length x)%nat). lia. }
      specialize (H groups (0 + S (String.length r1))%nat). lia. }
    destruct (numeral_digits nm <=? max_str_digits)%nat eqn:Hlen.
    - apply Nat.leb_le in Hlen.
      replace (max_str_digits <? numeral_digits nm)%nat with false
        by (symmetry; apply Nat.ltb_ge; exact Hlen).
      now rewrite Hpos.
    - apply Nat.leb_gt in Hlen.
      replace (max_str_digits <? numeral_digits nm)%nat with true
        by (symmetry; apply Nat.ltb_lt; exact Hlen).
      reflexivity. }
  unfold numeral_value. destruct (n_sign nm); cbn [sign_text].
  - rewrite append_empty_l, Hcr. cbn [lstrip_by]. rewrite Hsp, Hplus, Hminus, <- Hcr.
    rewrite <- (append_empty_l (join "_" (n_groups nm) +:+ n_after nm)) at 1.
    exact (Htail false).
  - change ("+" +:+ join "_" (n_groups nm) +:+ n_after nm)
      with (String "+" (join "_" (n_groups nm) +:+ n_after nm)).
    cbn [lstrip_by]. change (is_int_space "+") with false. cbv iota.
    change (Ascii.eqb "+" "+") with true. cbv iota. exact (Htail false).
  - change ("-" +:+ join "_" (n_groups nm) +:+ n_after nm)
      with (String "-" (join "_" (n_groups nm) +:+ n_after nm)).
    cbn [lstrip_by]. change (is_int_space "-") with false. cbv iota.
    change (Ascii.eqb "-" "+") with false. change (Ascii.eqb "-" "-") with true.
    cbv iota. exact (Htail true).
Qed.

Definition not_k (c : ascii) : bool := negb (Ascii.eqb "k" c).

Lemma numeral_text_not_k (nm : Numeral) :
  numeral_ok nm -> all_chars not_k (numeral_text nm) = true.
Proof.
  intros (Hb & Ha & _ & Hg).
  assert (Hsp : forall s, all_chars is_int_space s = true -> all_chars not_k s = true).
  { induction s as [|c s IH]; [reflexivity|]. cbn [all_chars]. intros H.
    apply andb_prop in H as [Hc Hs]. rewrite (IH Hs), andb_true_r.
    destruct c as [[] [] [] [] [] [] [] []]; try discriminate Hc; reflexivity. }
  assert (Hdg : forall s, all_chars is_digit s = true -> all_chars not_k s = true).
  { induction s as [|c s IH]; [reflexivity|]. cbn [all_chars]. intros H.
    apply andb_prop in H as [Hc Hs]. rewrite (IH Hs), andb_true_r.
    unfold not_k. now rewrite (digit_not_k c Hc). }
  unfold numeral_text. rewrite !all_chars_append, (Hsp _ Hb), (Hsp _ Ha).
  assert (Hsign : all_chars not_k (sign_text (n_sign nm)) = true)
    by (destruct (n_sign nm); reflexivity).
  rewrite Hsign. cbn [andb]. rewrite andb_true_r.
  induction Hg as [|g groups [_ Hd] _ IH]; [reflexivity|].
  destruct groups as [|g2 groups]; [cbn [join]; now apply Hdg|].
  change (join "_" (g :: g2 :: groups)) with (g +:+ "_" +:+ join "_" (g2 :: groups)).
  rewrite !all_chars_append, (Hdg _ Hd), IH. reflexivity.
Qed.

Lemma rev_str_ks (j : nat) (acc : string) : rev_str acc (ks j) = ks j +:+ acc.
Proof.
  revert acc. induction j as [|j IH]; intros acc; [reflexivity|].
  cbn [ks rev_str]. rewrite IH. clear IH. induction j as [|j IH]; [reflexivity|].
  cbn [ks]. rewrite !append_cons. now rewrite IH.
Qed.

Lemma reverse_append_ks (s : string) (j : nat) :
  reverse (s +:+ ks j) = ks j +:+ reverse s.
Proof. unfold reverse. now rewrite rev_str_append, rev_str_ks. Qed.

Lemma endswith_k_free (s : string) :
  all_chars not_k s = true -> endswith_char "k" s = false.
Proof.
  intros H. unfold endswith_char. apply all_chars_reverse in H.
  destruct (reverse s) as [|c r]; [reflexivity|]. cbn [all_chars] in H.
  apply andb_prop in H as [Hc _]. unfold not_k in Hc. apply negb_true_iff in Hc.
  now rewrite Ascii.eqb_sym.
Qed.

Lemma rstrip_ks (s : string) (j : nat) :
  all_chars not_k s = true -> rstrip_char "k" (s +:+ ks j) = s.
Proof.
  intros H. unfold rstrip_char, rstrip_by. rewrite reverse_append_ks.
  assert (Hks : all_chars (Ascii.eqb "k") (ks j) = true) by (induction j; auto).
  rewrite (lstrip_by_all _ _ _ Hks).
  rewrite (lstrip_by_none _ not_k); [apply str_reverse_involutive | | now apply all_chars_reverse].
  intros c Hc. unfold not_k in Hc. now apply negb_true_iff in Hc.
Qed.

(** The count of a whole number followed by [j] letters k. *)
Lemma metrics_count_numeral (nm : Numeral) (j : nat) :
  numeral_ok nm ->
  NatureArticle.metrics_count (numeral_text nm +:+ ks j)
  = if (numeral_digits nm <=? max_str_digits)%nat
    then inr (match j with O => numeral_value nm | S _ => numeral_value nm * 1000 end)
    else inl (exceeds_limit (numeral_digits nm)).
Proof.
  intros Hok. pose proof (numeral_text_not_k nm Hok) as Hk.
  unfold NatureArticle.metrics_count. destruct j as [|j].
  - cbn [ks]. rewrite append_empty_r, (endswith_k_free _ Hk). now apply int_of_str_numeral.
  - assert (Hend : endswith_char "k" (numeral_text nm +:+ ks (S j)) = true).
    { unfold endswith_char. rewrite reverse_append_ks. reflexivity. }
    rewrite Hend, (rstrip_ks _ _ Hk), (int_of_str_numeral nm Hok).
    now destruct (numeral_digits nm <=? max_str_digits)%nat.
Qed.

(** Every character of a string that [int] reads is white space, a sign,
    a digit or an underscore. *)
Definition int_char (c : ascii) : bool :=
  is_int_space c || is_digit c || Ascii.eqb c "+" || Ascii.eqb c "-" || Ascii.eqb c "_".

Lemma lstrip_by_chars (p q : ascii -> bool) (s : string) :
  (forall c, p c = true -> q c = true) ->
  all_chars q (lstrip_by p s) = true -> all_chars q s = true.
Proof.
  intros Hpq. induction s as [|c s IH]; [auto|]. cbn [lstrip_by all_chars].
  destruct (p c) eqn:Hc; [|auto]. intros H. now rewrite (Hpq c Hc), (IH H).
Qed.

Lemma int_scan_chars (s : string) :
  forall acc n b v d rest,
  int_scan acc n b s = Some (v, d, rest) ->
  all_chars int_char rest = true -> all_chars int_char s = true.
Proof.
  induction s as [|c s IH]; intros acc n b v d rest; cbn [int_scan].
  - destruct b; [discriminate|]. intros [= _ _ <-]. auto.
  - destruct (is_digit c) eqn:Hd.
    + intros H Hr. cbn [all_chars]. rewrite (IH _ _ _ _ _ _ H Hr), andb_true_r.
      unfold int_char. now rewrite Hd, orb_true_r.
    + destruct (Ascii.eqb c "_") eqn:Hu.
      * destruct b; [discriminate|]. intros H Hr. cbn [all_chars].
        rewrite (IH _ _ _ _ _ _ H Hr), andb_true_r. unfold int_char. now rewrite Hu, orb_true_r.
      * destruct b; [discriminate|]. intros [= _ _ <-]. auto.
Qed.

Lemma int_after_sign_chars (s number : string) (negative : bool) (v : Z) :
  int_after_sign s number negative = inr v -> all_chars int_char number = true.
Proof.
  unfold int_after_sign. destruct (String.prefix "_" number); [discriminate|].
  destruct (int_scan 0 0 false number) as [[[n d] rest]|] eqn:Hs; [|discriminate].
  destruct (max_str_digits <? d)%nat; [discriminate|].
  destruct (d =? 0)%nat; [discriminate|].
  destruct (lstrip_by is_int_space rest) eqn:Hrest; [|discriminate]. intros _.
  apply (int_scan_chars _ _ _ _ _ _ _ Hs).
  apply (lstrip_by_chars is_int_space); [|now rewrite Hrest].
  intros c Hc. unfold int_char. now rewrite Hc.
Qed.

Lemma int_of_str_chars (s : string) (v : Z) :
  int_of_str s = inr v -> all_chars int_char s = true.
Proof.
  unfold int_of_str. intros H.
  apply (lstrip_by_chars is_int_space); [intros c Hc; unfold int_char; now rewrite Hc|].
  destruct (lstrip_by is_int_space s) as [|c r]; [discriminate|].
  destruct (Ascii.eqb c "+") eqn:Hp.
  { apply int_after_sign_chars in H. cbn [all_chars]. rewrite H, andb_true_r.
    unfold int_char. rewrite Hp. now rewrite !orb_true_r. }
  destruct (Ascii.eqb c "-") eqn:Hm.
  { apply int_after_sign_chars in H. cbn [all_chars]. rewrite H, andb_true_r.
    unfold int_char. rewrite Hm. now rewrite !orb_true_r. }
  now apply int_after_sign_chars in H.
Qed.

Lemma int_of_str_value_error (s : string) (e : Exc) :
  int_of_str s = inl e -> exc_class e = ValueError.
Proof.
  unfold int_of_str.
  assert (Htail : forall number negative,
            int_after_sign s number negative = inl e -> exc_class e = ValueError).
  { intros number negative. unfold int_after_sign.
    destruct (String.prefix "_" number); [intros [= <-]; reflexivity|].
    destruct (int_scan 0 0 false number) as [[[n d] rest]|]; [|intros [= <-]; reflexivity].
    destruct (max_str_digits <? d)%nat; [intros [= <-]; reflexivity|].
    destruct (d =? 0)%nat; [intros [= <-]; reflexivity|].
    destruct (lstrip_by is_int_space rest); [discriminate | intros [= <-]; reflexivity]. }
  destruct (lstrip_by is_int_space s) as [|c r]; [intros [= <-]; reflexivity|].
  destruct (Ascii.eqb c "+"); [apply Htail|].
  destruct (Ascii.eqb c "-"); apply Htail.
Qed.

Definition int_or_k (c : ascii) : bool := int_char c || Ascii.eqb "k" c.

Lemma has_char_all (k : ascii) (q : ascii -> bool) (s : string) :
  q k = false -> all_chars q s = true -> has_char k s = false.
Proof.
  intros Hk. induction s as [|c s IH]; [reflexivity|]. cbn [all_chars has_char]. intros H.
  apply andb_prop in H as [Hc Hs]. rewrite (IH Hs), orb_false_r.
  destruct (Ascii.eqb_spec k c) as [->|]; [congruence | reflexivity].
Qed.

(** A count with a decimal point never parses. *)
Lemma metrics_count_point (num_txt : string) :
  has_char "." num_txt = true ->
  exists e, NatureArticle.metrics_count num_txt = inl e /\ exc_class e = ValueError.
Proof.
  intros Hpoint. unfold NatureArticle.metrics_count.
  assert (Hno : forall s v, int_of_str s = inr v -> all_chars int_or_k s = true).
  { intros s v H. apply int_of_str_chars in H. clear -H.
    induction s as [|c s IH]; [reflexivity|]. cbn [all_chars] in *.
    apply andb_prop in H as [Hc Hs]. unfold int_or_k at 1. now rewrite Hc, (IH Hs). }
  destruct (endswith_char "k" num_txt).
  - destruct (int_of_str (rstrip_char "k" num_txt)) as [e|v] eqn:Hint.
    + exists e. split; [reflexivity|]. now apply int_of_str_value_error in Hint.
    + exfalso. apply Hno in Hint. unfold rstrip_char, rstrip_by in Hint.
      apply all_chars_reverse in Hint. rewrite str_reverse_involutive in Hint.
      apply (lstrip_by_chars (Ascii.eqb "k") int_or_k) in Hint.
      * apply all_chars_reverse in Hint. rewrite str_reverse_involutive in Hint.
        rewrite (has_char_all "." int_or_k _ eq_refl Hint) in Hpoint. discriminate.
      * intros c Hc. unfold int_or_k. now rewrite Hc, orb_true_r.
  - destruct (int_of_str num_txt) as [e|v] eqn:Hint.
    + exists e. split; [reflexivity|]. now apply int_of_str_value_error in Hint.
    + exfalso. apply Hno in Hint.
      rewrite (has_char_all "." int_or_k _ eq_refl Hint) in Hpoint. discriminate.
Qed.

(** C2 (amended).  A count that is a whole number (white space, a sign,
    digits in groups separated by single underscores, white space; at most
    4300 digits) parses to that number, and followed by one or more letters
    k to a thousand times that number; with more than 4300 digits [int]
    raises [ValueError].  A count with a decimal point raises [ValueError],
    with or without k. *)
Theorem metrics_count_whole_numbers (nm : Numeral) (j : nat) (num_txt : string) :
  numeral_ok nm ->
  NatureArticle.metrics_count (numeral_text nm +:+ ks j)
  = (if (numeral_digits nm <=? 4300)%nat
     then inr (match j with O => numeral_value nm | S _ => numeral_value nm * 1000 end)
     else inl (exceeds_limit (numeral_digits nm)))
  /\ (has_char "." num_txt = true ->
      exists e, NatureArticle.metrics_count num_txt = inl e /\ exc_class e = ValueError).
Proof.
  intros Hok. split; [now apply metrics_count_numeral | apply metrics_count_point].
Qed.

Definition numeral_of (ds : string) : Numeral :=
  {| n_before := ""; n_sign := NoSign; n_groups := [ds]; n_after := "" |}.

Lemma numeral_of_ok (ds : string) :
  ds <> "" -> all_chars is_digit ds = true -> numeral_ok (numeral_of ds).
Proof.
  intros H1 H2. unfold numeral_ok, numeral_of. cbn.
  split; [reflexivity|]. split; [reflexivity|]. split; [discriminate|].
  constructor; [now split | constructor].
Qed.

Lemma metrics_count_whole_numbers_witness :
  NatureArticle.metrics_count "250" = inr 250
  /\ NatureArticle.metrics_count "12k" = inr 12000
  /\ NatureArticle.metrics_count "1k" = inr 1000
  /\ exists e, NatureArticle.metrics_count "1.2k" = inl e /\ exc_class e = ValueError.
Proof.
  split; [|split; [|split]].
  - apply (metrics_count_whole_numbers (numeral_of "250") 0 "").
    apply numeral_of_ok; [discriminate | reflexivity].
  - apply (metrics_count_whole_numbers (numeral_of "12") 1 "").
    apply numeral_of_ok; [discriminate | reflexivity].
  - apply (metrics_count_whole_numbers (numeral_of "1") 1 "").
    apply numeral_of_ok; [discriminate | reflexivity].
  - apply (metrics_count_whole_numbers (numeral_of "1") 0 "1.2k").
    + apply numeral_of_ok; [discriminate | reflexivity].
    + reflexivity.
Defined.

End MetricsCount.

(** * The title tokenizer *)

Section Tokenizer.

Definition leading_non_alnum (s : string) : bool :=
  match s with
  | String c _ => negb (is_alnum c)
  | EmptyString => false
  end.

Fixpoint trailing_non_alnum (s : string) : bool :=
  match s with
  | EmptyString => false
  | String c EmptyString => negb (is_alnum c)
  | String _ r => trailing_non_alnum r
  end.

Fixpoint consecutive_non_alnum (s : string) : bool :=
  match s with
  | EmptyString => false
  | String a r => (negb (is_alnum a) && leading_non_alnum r) || consecutive_non_alnum r
  end.

Lemma blank_is_space (x : ascii) :
  Ascii.eqb " " (blank_non_alnum x) = negb (is_alnum x).
Proof. destruct x as [[] [] [] [] [] [] [] []]; reflexivity. Qed.

Lemma cleaned_title_cons (x : ascii) (s : string) :
  cleaned_title (String x s) =
    if is_alnum x then cons_head x (cleaned_title s) else "" :: cleaned_title s.
Proof.
  unfold cleaned_title, split. cbn [map_str]. rewrite split_go_char, blank_is_space.
  unfold blank_non_alnum. now destruct (is_alnum x).
Qed.

Lemma cleaned_title_nonempty (s : string) : cleaned_title s <> [].
Proof.
  destruct s as [|x s]; [discriminate|]. rewrite cleaned_title_cons.
  destruct (is_alnum x); [|discriminate]. now destruct (cleaned_title s).
Qed.

Lemma cleaned_title_leading (s : string) :
  leading_non_alnum s = true -> exists ts, cleaned_title s = "" :: ts.
Proof.
  destruct s as [|x s]; [discriminate|]. cbn [leading_non_alnum]. intros H.
  rewrite cleaned_title_cons.
  apply negb_true_iff in H. rewrite H. eauto.
Qed.

(** A title that ends in, or has two neighbouring, characters outside
    [a-zA-Z0-9] has an empty token after its first one. *)
Lemma cleaned_title_inner_empty (s : string) :
  trailing_non_alnum s || consecutive_non_alnum s = true ->
  In "" (List.tl (cleaned_title s)).
Proof.
  induction s as [|x s IH]; [discriminate|].
  intros H. rewrite cleaned_title_cons.
  assert (Hs : is_alnum x = false ->
               s = "" \/ leading_non_alnum s = true
               \/ trailing_non_alnum s || consecutive_non_alnum s = true).
  { intros Hx. destruct s as [|y s]; [now left|right].
    cbn [trailing_non_alnum consecutive_non_alnum] in H. rewrite Hx in H.
    cbn [negb andb] in H. fold (trailing_non_alnum (String y s)) in H.
    destruct (leading_non_alnum (String y s)); [now left|right].
    cbn [orb] in H. exact H. }
  assert (Hs' : is_alnum x = true ->
                trailing_non_alnum s || consecutive_non_alnum s = true).
  { intros Hx. destruct s as [|y s].
    - cbn in H. rewrite Hx in H. discriminate.
    - cbn [trailing_non_alnum consecutive_non_alnum] in H. rewrite Hx in H.
      cbn [negb andb orb] in H. exact H. }
  destruct (is_alnum x) eqn:Hx.
  - specialize (IH (Hs' eq_refl)).
    destruct (cleaned_title s) as [|t ts]; [destruct IH | exact IH].
  - cbn [List.tl]. destruct (Hs eq_refl) as [-> | [Hl | Ht]].
    + now left.
    + destruct (cleaned_title_leading s Hl) as [ts ->]. now left.
    + specialize (IH Ht). destruct (cleaned_title s) as [|t ts]; [destruct IH|].
      now right.
Qed.

Lemma cleaned_title_empty_token (s : string) :
  leading_non_alnum s || trailing_non_alnum s || consecutive_non_alnum s = true ->
  In "" (cleaned_title s).
Proof.
  intros H. destruct (leading_non_alnum s) eqn:Hl.
  - destruct (cleaned_title_leading s Hl) as [ts ->]. now left.
  - cbn [orb] in H. pose proof (cleaned_title_inner_empty s H) as Hin.
    destruct (cleaned_title s); [destruct Hin | now right].
Qed.

End Tokenizer.

(** * The word counter *)

Section WordCounter.

Variable env : Env.

Definition word_call (w : string) : Event := EvCallProc "AddOrIncrementWord" [lower w].

Lemma db_call_trace (ev : Event) (st st' : State) (r : Res unit) :
  db_call env ev st = (st', r) -> st' = log ev st.
Proof.
  unfold db_call. destruct (db_raises env (trace st) ev); intros [= <- _]; reflexivity.
Qed.

Lemma word_loop_cons (w : string) (ws : list string) (st : State) :
  word_loop env (w :: ws) st =
    match db_call env (word_call w) st with
    | (st1, inl e) => (st1, inl e)
    | (st1, inr _) => word_loop env ws (set_words (AddOrIncrementWord (lower w) (words st1)) st1)
    end.
Proof.
  cbn [word_loop]. unfold bind, callproc_word, bind, word_call.
  now destruct (db_call env _ st) as [st1 [e|[]]].
Qed.

(** The calls of the loop are those of a prefix of the tokens, and of all
    of them when the loop ends normally. *)
Lemma word_loop_trace (ws : list string) (st st' : State) (r : Res unit) :
  word_loop env ws st = (st', r) ->
  exists k, trace st' = trace st ++ List.map word_call (take k ws)
            /\ (r = inr tt -> k = List.length ws)
            /\ db st' = db st /\ words_committed st' = words_committed st.
Proof.
  revert st. induction ws as [|w ws IH]; intros st H.
  - cbn in H. injection H as <- <-. exists 0%nat. rewrite app_nil_r. auto.
  - rewrite word_loop_cons in H.
    destruct (db_call env (word_call w) st) as [st1 [e|[]]] eqn:Hc;
      apply db_call_trace in Hc; subst st1.
    + injection H as <- <-. exists 1%nat. cbn. repeat split. discriminate.
    + apply IH in H as (k & Ht & Hk & Hdb & Hwc). exists (S k). cbn in *.
      rewrite Ht, <- app_assoc. repeat split; auto.
Qed.

End WordCounter.

(** * A small site and an empty database, for the examples *)

Section Examples.

Definition card_ok : Card :=
  {| card_links := [("Tumour cells, and  more", Some "/articles/a1")];
     card_author_lists := [["Alice B Smith"; "Consortium"]];
     card_types := ["Article"];
     card_times := [Some "2023-03-14"] |}.

(** A card without its title link. *)
Definition card_bad : Card :=
  {| card_links := []; card_author_lists := []; card_types := []; card_times := [] |}.

Definition empty_soup : Soup :=
  {| sections := []; bib_values := []; metrics_wrappers := []; bib_items := [];
     info_details := []; author_lists := []; author_items := [] |}.

Definition listing1 : Soup :=
  {| sections := [card_bad; card_ok]; bib_values := []; metrics_wrappers := [];
     bib_items := []; info_details := []; author_lists := []; author_items := [] |}.

Definition article1 : Soup :=
  {| sections := [];
     bib_values := ["14 March 2023"; "https://doi.org/10.1038/a1"];
     metrics_wrappers := [["12k Accesses"; "250 Citations"]];
     bib_items := ["Received: 14 March 2023"; "Published: 01 April 2023"];
     info_details := [["Nature"]];
     author_lists := [["Alice B Smith"; "Consortium"; "Alice Smith"]];
     author_items := [[Some "https://orcid.org/0000-0001"]; [];
                      [Some "https://orcid.org/0000-0001"]] |}.

Definition web1 (_ : list Event) (url : string) : option Soup :=
  if String.eqb url (url_unformatted 1) then Some listing1
  else if String.eqb url "https://www.nature.com/articles/a1" then Some article1
  else Some empty_soup.

Definition columns1 (t : TableName) : list Column :=
  match t with
  | ARTICLES =>
      List.map (fun n => {| col_name := n; col_length := Some 255%nat |})
        ["TITLE"; "TITLE_LINK"; "DOI"; "JOURNAL"; "ACCESSES"; "CITATIONS"; "RECEIVED";
         "PUBLISHED"; "ARTICLE_TYPE"; "DATE_PUBLISHED"; "FIRST_FIRSTNAME"; "FIRST_LASTNAME"]
  | AUTHORS =>
      List.map (fun n => {| col_name := n; col_length := Some 255%nat |})
        ["FIRSTNAME"; "LASTNAME"; "ORCID"]
  | ARTICLES_AUTHORS =>
      List.map (fun n => {| col_name := n; col_length := None |})
        ["ARTICLE_ID"; "AUTHOR_ID"]
  end.

Lemma columns1_doi : In "DOI" (List.map col_name (columns1 ARTICLES)).
Proof. cbn. tauto. Qed.

(** The database never fails. *)
Definition env1 : Env :=
  {| web := web1; db_raises := fun _ _ => false; columns := columns1;
     doi_column := columns1_doi |}.

(** Every call of the stored procedure fails. *)
Definition env_words_fail : Env :=
  {| web := web1;
     db_raises := fun _ ev => match ev with EvCallProc _ _ => true | _ => false end;
     columns := columns1; doi_column := columns1_doi |}.


Definition empty_table : Table := mkTable [] 1.

Definition st0 : State :=
  {| db := mkDatabase empty_table empty_table empty_table;
     words := ∅; words_committed := ∅; stdout := []; trace := [];
     keepSeeking := true; pages_seen := []; failed_at := [] |}.

Definition x_tumour : Extracted :=
  mkExtracted (<["TITLE" := VStr "Tumour cells, and  more"]> ∅) [] [].

End Examples.

(** * Authors without a first name *)

Section EmptyFirstName.

Lemma contains_absent (c : ascii) (s : string) :
  contains (String c "") s = false ->
  all_chars (fun x => negb (Ascii.eqb c x)) s = true.
Proof.
  induction s as [|x s IH]; [reflexivity|].
  cbn [contains all_chars String.prefix]. intros H.
  apply orb_false_iff in H as [Hp Hs].
  rewrite (IH Hs), andb_true_r.
  destruct (ascii_dec c x) as [->|Hne].
  - now destruct s.
  - apply negb_true_iff. now apply Ascii.eqb_neq.
Qed.

Lemma split_go_nonempty (sep : string) (k : nat) (s : string) : split_go sep k s <> [].
Proof.
  revert k. induction s as [|x s IH]; intros k; [discriminate|].
  cbn [split_go]. destruct k; [|apply IH].
  destruct (String.prefix sep (String x s)); [discriminate|].
  specialize (IH 0%nat). now destruct (split_go sep 0 s).
Qed.

Lemma last_elt_split (sep s : string) : exists l, last_elt (split sep s) = inr l.
Proof.
  unfold last_elt, split. pose proof (split_go_nonempty sep 0 s) as Hne.
  destruct (List.rev (split_go sep 0 s)) eqn:E; [|eauto].
  apply (f_equal (@List.rev string)) in E. rewrite List.rev_involutive in E. contradiction.
Qed.

(** [getSingleAuthorDict] never raises, and sets both keys. *)
Lemma getSingleAuthorDict_keys (auth : string) :
  exists l,
    getSingleAuthorDict auth
    = inr (<["LASTNAME" := VStr l]>
             (<["FIRSTNAME" := VStr (join " " (drop_last (split " " auth)))]> ∅)).
Proof.
  unfold getSingleAuthorDict. destruct (last_elt_split " " auth) as [l ->]. eauto.
Qed.

(** C8.  A name of one token has an empty first name, and the loop over the
    authors passes over every author with an empty first name: the state, and
    with it the tables and the list of calls, is unchanged and so is the set of
    linked author IDs. *)
Theorem empty_firstname_is_skipped (env : Env) (auth : string) :
  exists d,
    getSingleAuthorDict auth = inr d
    /\ (contains " " auth = false -> d !! "FIRSTNAME" = Some (VStr ""))
    /\ (d !! "FIRSTNAME" = Some (VStr "") ->
        forall article_id_last orcids auth_i auth_id_seen st,
          author_step env article_id_last orcids auth_i auth auth_id_seen st
          = (st, inr auth_id_seen)).
Proof.
  destruct (getSingleAuthorDict_keys auth) as [l Hd]. eexists. split; [exact Hd|]. split.
  - intros Hc. rewrite lookup_insert_ne by discriminate. rewrite lookup_insert_eq.
    rewrite (split_absent _ _ (contains_absent _ _ Hc)). reflexivity.
  - intros Hf aid orcids i seen st. unfold author_step, bind, lift. rewrite Hd.
    unfold index_key. rewrite Hf. reflexivity.
Qed.

End EmptyFirstName.

(** * A card without its title link *)

Section MissingCard.

Variable env : Env.

Lemma title_link_index_error (el : Card) (e : Exc) :
  Nature.title_link el = inl e -> is_IndexError e = true -> card_links el = [].
Proof.
  unfold Nature.title_link, first. destruct (card_links el) as [|[t [h|]] r]; cbn.
  - reflexivity.
  - discriminate.
  - intros [= <-]. discriminate.
Qed.

Lemma title_index_error (el : Card) (e : Exc) :
  Nature.title el = inl e -> card_links el = [].
Proof.
  unfold Nature.title, first. destruct (card_links el) as [|a r]; cbn; [reflexivity|discriminate].
Qed.

Lemma extract_without_link (el : Card) (st : State) :
  card_links el = [] ->
  extract env el st = (st, raise IndexError "list index out of range").
Proof.
  intros H. unfold extract, extract_detail, bind, lift, Nature.title, first.
  now rewrite H.
Qed.

(** C1 (amended).  When reading the title or the link of the card at index
    [i] raises [IndexError], that card alone is passed over: after the line
    announcing it nothing is printed, fetched, looked up or stored for it, no
    exception leaves the loop, and the loop goes on with the card at index
    [i + 1]. *)
Theorem index_error_skips_that_card_only
    (page_num : Z) (i : nat) (el : Card) (rest : list Card) (st : State) (e : Exc) :
  (i < 1000)%nat ->
  Nature.title el = inl e \/ Nature.title_link el = inl e ->
  is_IndexError e = true ->
  let st1 := emit ("Article: " +:+ str_of_int (Z.of_nat i)) st in
  process_article env page_num i el st = (st1, Continue)
  /\ for_articles env page_num i (el :: rest) st = for_articles env page_num (S i) rest st1.
Proof.
  intros Hi Hraise He st1.
  assert (Hlinks : card_links el = []).
  { destruct Hraise as [H|H]; [eapply title_index_error | eapply title_link_index_error]; eauto. }
  assert (Hp : process_article env page_num i el st = (st1, Continue)).
  { unfold process_article. fold st1.
    destruct (1000 <=? i)%nat eqn:Hle; [apply Nat.leb_le in Hle; lia|].
    now rewrite (extract_without_link el st1 Hlinks). }
  split; [exact Hp|]. cbn [for_articles]. now rewrite Hp.
Qed.

End MissingCard.

Lemma index_error_skips_that_card_only_witness :
  process_article env1 1 0 card_bad st0 = (emit "Article: 0" st0, Continue)
  /\ for_articles env1 1 0 [card_bad; card_ok] st0
     = for_articles env1 1 1 [card_ok] (emit "Article: 0" st0).
Proof.
  apply (index_error_skips_that_card_only env1 1 0 card_bad [card_ok] st0
           (mkExc IndexError "list index out of range")).
  - lia.
  - left. reflexivity.
  - reflexivity.
Defined.

(** C1 (as stated, refuted).  On a page of two cards whose first card has no
    title link, the second card is processed all the same: its article page is
    fetched and its article stored. *)
Lemma card_after_index_error_is_processed :
  Nature.title card_bad = raise IndexError "list index out of range"
  /\ In (EvGet "https://www.nature.com/articles/a1")
        (trace (for_articles env1 1 0 [card_bad; card_ok] st0))
  /\ List.map (fun row => row !! "TITLE")
       (t_rows (db_ARTICLES (db (for_articles env1 1 0 [card_bad; card_ok] st0))))
     = [Some (VStr "Tumour cells, and  more")].
Proof. vm_compute. repeat split. left. reflexivity. Qed.

(** * An article that is already stored *)

Section AlreadyStored.

Variable env : Env.

Lemma getSoup_state (url : string) (st st' : State) (r : Res Soup) :
  getSoup env url st = (st', r) -> st' = log (EvGet url) st.
Proof.
  unfold getSoup. destruct (web env (trace st) url); intros [= <- _]; reflexivity.
Qed.


Lemma find_present {A} (p : A -> bool) (l : list A) (x : A) :
  In x l -> p x = true -> exists y, List.find p l = Some y.
Proof.
  intros Hin Hp. destruct (List.find p l) eqn:E; [eauto|].
  pose proof (find_none p l E x Hin). congruence.
Qed.




End AlreadyStored.

(** The state after the article of [card_ok] has been stored once. *)
Definition st_stored : State := for_articles env1 1 0 [card_ok] st0.




(** * What the database operations change *)

Section Frames.

Variable env : Env.

(** The link row of an article and an author. *)
Definition link_row (article_id auth_id : Value) : Entry :=
  <["AUTHOR_ID" := auth_id]> (<["ARTICLE_ID" := article_id]> ∅).

Definition links (st : State) : list Entry := t_rows (db_ARTICLES_AUTHORS (db st)).

(** The state outside the tables and the list of calls. *)
Definition same_words (st st' : State) : Prop :=
  words st' = words st /\ words_committed st' = words_committed st.

Lemma same_words_refl (st : State) : same_words st st.
Proof. now split. Qed.

Lemma same_words_trans (st1 st2 st3 : State) :
  same_words st1 st2 -> same_words st2 st3 -> same_words st1 st3.
Proof. unfold same_words. intros [-> ->] [-> ->]. now split. Qed.

Lemma select_first_state t col cond (st st' : State) (r : Res (option Value)) :
  select_first env t col cond st = (st', r) -> st' = log (EvSelect t cond) st.
Proof.
  unfold select_first, bind.
  destruct (db_call env (EvSelect t cond) st) as [st1 [e|[]]] eqn:Hc;
    apply db_call_trace in Hc; subst st1; intros [= <- _]; reflexivity.
Qed.

(** An INSERT either raises and leaves the tables alone (before it is
    sent, for a key that names no column, or when the database refuses
    it), or appends one row to its table. *)
Lemma execute_insert_state t entry (st st' : State) (r : Res (list Value)) :
  execute_insert env t entry st = (st', r) ->
  ((st' = st \/ st' = log (EvInsert t entry) st) /\ exists e, r = inl e)
  \/ (st' = set_db (set_table t (fst (insert_row t entry (get_table t (db st)))) (db st))
              (log (EvInsert t entry) st)
      /\ r = inr (snd (insert_row t entry (get_table t (db st))))).
Proof.
  unfold execute_insert, bind.
  destruct (unconsumed env t entry) as [|k names].
  - destruct (db_call env (EvInsert t entry) st) as [st1 [e|[]]] eqn:Hc;
      apply db_call_trace in Hc; subst st1; intros [= <- <-]; [left|right]; eauto.
  - intros [= <- <-]. left. eauto.
Qed.

Lemma find_author_state d orcid (st st' : State) (r : Res (option Value)) :
  find_author env d orcid st = (st', r) ->
  db st' = db st /\ same_words st st'.
Proof.
  unfold find_author, bind, lift. destruct orcid as [o|].
  - intros H. apply select_first_state in H. subst st'. split; [reflexivity|now split].
  - destruct (index_key d "FIRSTNAME"); [intros [= <- _]; split; [reflexivity|now split]|].
    destruct (index_key d "LASTNAME"); [intros [= <- _]; split; [reflexivity|now split]|].
    intros H. apply select_first_state in H. subst st'. split; [reflexivity|now split].
Qed.

(** Resolving an author touches the AUTHORS table only. *)
Lemma resolve_author_frame d orcid (st st' : State) (r : Res Value) :
  resolve_author env d orcid st = (st', r) ->
  links st' = links st /\ db_ARTICLES (db st') = db_ARTICLES (db st) /\ same_words st st'.
Proof.
  unfold resolve_author, bind.
  destruct (find_author env _ orcid st) as [st1 [e|[auth_id|]]] eqn:Hf;
    apply find_author_state in Hf as [Hdb Hw].
  - intros [= <- _]. unfold links. now rewrite Hdb.
  - intros [= <- _]. unfold links. now rewrite Hdb.
  - unfold myInsert.
    destruct (execute_insert env AUTHORS _ st1) as [st2 [e|pk]] eqn:Hi;
      apply execute_insert_state in Hi as [[Hst [e' He]] | [-> He]]; try discriminate.
    + destruct Hst as [-> | ->]; intros [= <- _]; unfold links; cbn; now rewrite Hdb.
    + destruct (bool_decide _); unfold lift; intros [= <- _]; unfold links; cbn;
        now rewrite Hdb.
Qed.

(** Linking an author adds at most the one row of this article and this
    author, and only for an author not linked before. *)
Lemma link_author_links aid auth_id (seen : gset Value) (st st' : State) (r : Res (gset Value)) :
  link_author env aid auth_id seen st = (st', r) ->
  exists ids,
    links st' = links st ++ List.map (link_row aid) ids
    /\ NoDup ids /\ (forall a, In a ids -> a ∉ seen)
    /\ (forall seen', r = inr seen' -> seen' = list_to_set ids ∪ seen)
    /\ db_ARTICLES (db st') = db_ARTICLES (db st) /\ same_words st st'.
Proof.
  unfold link_author. destruct (bool_decide (auth_id ∈ seen)) eqn:Hin.
  - intros [= <- <-]. exists []. cbn. rewrite app_nil_r.
    split_and!; [reflexivity | constructor | intros ? [] | | reflexivity | now split].
    intros seen' [= <-]. set_solver.
  - apply bool_decide_eq_false in Hin. unfold bind, myInsert.
    destruct (execute_insert env ARTICLES_AUTHORS _ st) as [st1 [e|pk]] eqn:Hi;
      apply execute_insert_state in Hi as [[Hst [e' He]] | [-> He]]; try discriminate.
    + destruct Hst as [-> | ->]; intros [= <- <-]; exists []; cbn; rewrite app_nil_r;
        (split_and!; [reflexivity | constructor | intros ? [] | discriminate | reflexivity
                     | now split]).
    + intros [= <- <-]. exists [auth_id]. cbn.
      split_and!; [reflexivity | | | | reflexivity | now split].
      * constructor; [intros Hf; inversion Hf|constructor].
      * intros a [<-|[]]. exact Hin.
      * intros seen' [= <-]. set_solver.
Qed.

End Frames.

(** * Links of one article *)

Section Links.

Variable env : Env.

Lemma author_step_links aid orcids i auth (seen : gset Value) (st st' : State)
    (r : Res (gset Value)) :
  author_step env aid orcids i auth seen st = (st', r) ->
  exists ids,
    links st' = links st ++ List.map (link_row aid) ids
    /\ NoDup ids /\ (forall a, In a ids -> a ∉ seen)
    /\ (forall seen', r = inr seen' -> seen' = list_to_set ids ∪ seen)
    /\ db_ARTICLES (db st') = db_ARTICLES (db st) /\ same_words st st'.
Proof.
  assert (Hnone : forall e, exists ids : list Value,
             links st = links st ++ List.map (link_row aid) ids
             /\ NoDup ids /\ (forall a, In a ids -> a ∉ seen)
             /\ (forall seen', @inl Exc (gset Value) e = inr seen' -> seen' = list_to_set ids ∪ seen)
             /\ db_ARTICLES (db st) = db_ARTICLES (db st) /\ same_words st st).
  { intros e. exists []. cbn. rewrite app_nil_r.
    split_and!; [reflexivity | constructor | intros ? [] | discriminate | reflexivity
                | now split]. }
  unfold author_step, bind, lift.
  destruct (getSingleAuthorDict auth) as [e|d]; [intros [= <- <-]; apply Hnone|].
  destruct (index_key d "FIRSTNAME") as [e|f]; [intros [= <- <-]; apply Hnone|].
  destruct (bool_decide (f = VStr "")).
  { intros [= <- <-]. exists []. cbn. rewrite app_nil_r.
    split_and!; [reflexivity | constructor | intros ? [] | | reflexivity | now split].
    intros seen' [= <-]. set_solver. }
  destruct (index orcids i) as [e|orcid]; [intros [= <- <-]; apply Hnone|].
  destruct (resolve_author env d orcid st) as [st1 [e|auth_id]] eqn:Hr;
    apply resolve_author_frame in Hr as (Hl & Ha & Hw).
  - intros [= <- <-]. exists []. cbn. rewrite app_nil_r.
    split_and!; [exact Hl | constructor | intros ? [] | discriminate | exact Ha | exact Hw].
  - intros H. apply link_author_links in H as (ids & H1 & H2 & H3 & H4 & H5 & H6).
    exists ids. rewrite H1, Hl, H5, Ha.
    split_and!; auto. eapply same_words_trans; eauto.
Qed.

(** The rows the loop over the authors adds to ARTICLES_AUTHORS all carry
    the ID of the article and pairwise different author IDs. *)
Lemma author_loop_links aid orcids auths :
  forall i (seen : gset Value) (st st' : State) (r : Res (gset Value)),
  author_loop env aid orcids i auths seen st = (st', r) ->
  exists ids,
    links st' = links st ++ List.map (link_row aid) ids
    /\ NoDup ids /\ (forall a, In a ids -> a ∉ seen)
    /\ db_ARTICLES (db st') = db_ARTICLES (db st) /\ same_words st st'.
Proof.
  induction auths as [|auth rest IH]; intros i seen st st' r.
  - intros [= <- <-]. exists []. cbn. rewrite app_nil_r.
    split_and!; [reflexivity | constructor | intros ? [] | reflexivity | now split].
  - cbn [author_loop]. unfold bind.
    destruct (author_step env aid orcids i auth seen st) as [st1 [e|seen1]] eqn:Hs;
      apply author_step_links in Hs as (ids1 & H1 & H2 & H3 & H4 & H5 & H6).
    + intros [= <- <-]. exists ids1. split_and!; auto.
    + intros H. apply IH in H as (ids2 & G1 & G2 & G3 & G5 & G6).
      specialize (H4 seen1 eq_refl). subst seen1.
      exists (ids1 ++ ids2). rewrite G1, H1, List.map_app, <- app_assoc, G5, H5.
      split_and!; auto.
      * apply NoDup_app. split_and!; auto.
        intros a Ha1 Ha2. apply list_elem_of_In in Ha2. apply G3 in Ha2.
        apply Ha2. apply elem_of_union. left. now apply elem_of_list_to_set.
      * intros a Ha. apply in_app_iff in Ha as [Ha|Ha]; [now apply H3|].
        apply G3 in Ha. set_solver.
      * eapply same_words_trans; eauto.
Qed.

End Links.

(** * The transaction of one article *)

Section ArticleTransaction.

Variable env : Env.

(** The ways out of [with engine.begin() as conn]: BEGIN raises; the body
    raises and the tables are rolled back; COMMIT raises and the tables are
    rolled back; or the body's changes are committed. *)
Lemma with_transaction_cases {A} (body : M A) (st st' : State) (r : Res A) :
  with_transaction env body st = (st', r) ->
  (st' = log EvBegin st /\ exists e, r = inl e)
  \/ (exists st1 e, body (log EvBegin st) = (st1, inl e)
        /\ st' = set_db (db st) (log EvRollback st1) /\ r = inl e)
  \/ (exists st1 a, body (log EvBegin st) = (st1, inr a)
        /\ ((st' = set_db (db st) (log EvCommit st1) /\ exists e, r = inl e)
            \/ (st' = log EvCommit st1 /\ r = inr a))).
Proof.
  unfold with_transaction.
  destruct (db_call env EvBegin st) as [st0 [e|[]]] eqn:Hb;
    apply db_call_trace in Hb; subst st0.
  { intros [= <- <-]. left. eauto. }
  destruct (body (log EvBegin st)) as [st1 [e|a]] eqn:Hbody.
  { intros [= <- <-]. right. left. eauto. }
  destruct (db_call env EvCommit st1) as [st2 [e|[]]] eqn:Hc;
    apply db_call_trace in Hc; subst st2; intros [= <- <-]; right; right;
    exists st1, a; eauto.
Qed.

Definition store_body (x : Extracted) : M (gset Value) :=
  let! inserted_primary_key := myInsert env (articles_entry x) ARTICLES true true in
  let! article_id_last := lift (index inserted_primary_key 0) in
  author_loop env article_id_last (auth_proper_orcid x) 0 (authors_proper x) ∅.

Lemma store_article_body (x : Extracted) :
  store_article env x = with_transaction env (store_body x).
Proof. reflexivity. Qed.

Lemma store_body_effect (x : Extracted) (st st' : State) (r : Res (gset Value)) :
  store_body x st = (st', r) ->
  same_words st st'
  /\ (exists aid ids, NoDup ids /\ links st' = links st ++ List.map (link_row aid) ids)
  /\ (forall seen, r = inr seen ->
      exists row, t_rows (db_ARTICLES (db st')) = t_rows (db_ARTICLES (db st)) ++ [row]).
Proof.
  unfold store_body, bind, myInsert, lift.
  destruct (execute_insert env ARTICLES _ st) as [st1 [e|pk]] eqn:Hi;
    apply execute_insert_state in Hi as [[Hst [e' He]] | [-> He]]; try discriminate.
  - destruct Hst as [-> | ->]; intros [= <- <-];
      (split_and!; [now split | | discriminate]);
      exists VNone, []; cbn; rewrite app_nil_r; (split; [constructor | reflexivity]).
  - destruct (index pk 0) as [e|aid].
    + intros [= <- <-]. split_and!; [now split | | discriminate].
      exists VNone, []. cbn. rewrite app_nil_r. split; [constructor | reflexivity].
    + intros H. apply author_loop_links in H as (ids & H1 & H2 & _ & H4 & H5).
      split_and!.
      * eapply same_words_trans; [|exact H5]. now split.
      * exists aid, ids. split; [exact H2|]. rewrite H1. reflexivity.
      * intros seen _. rewrite H4. cbn. eauto.
Qed.

(** The transaction either commits, with one more row in ARTICLES, or leaves
    every table as it was; the word counts are not touched. *)
Lemma store_article_outcome (x : Extracted) (st st' : State) (r : Res (gset Value)) :
  store_article env x st = (st', r) ->
  same_words st st'
  /\ match r with
     | inl _ => db st' = db st
     | inr _ => exists row,
         t_rows (db_ARTICLES (db st')) = t_rows (db_ARTICLES (db st)) ++ [row]
     end.
Proof.
  rewrite store_article_body. intros H.
  apply with_transaction_cases in H
    as [[-> [e ->]] | [(st1 & e & Hb & -> & ->) | (st1 & a & Hb & [[-> [e ->]] | [-> ->]])]];
    try (apply store_body_effect in Hb as (Hw & _ & Hrow)).
  - split; [now split | reflexivity].
  - split; [|reflexivity]. destruct Hw as [? ?]. now split.
  - split; [|reflexivity]. destruct Hw as [? ?]. now split.
  - split; [destruct Hw as [? ?]; now split|]. exact (Hrow a eq_refl).
Qed.

(** C4.  The rows the transaction of one article adds to ARTICLES_AUTHORS
    all carry the same article ID and pairwise different author IDs: no
    (article, author) pair is linked twice, however often the same resolved
    author occurs in the list of the page. *)
Theorem one_link_per_author (x : Extracted) (st st' : State) (r : Res (gset Value)) :
  store_article env x st = (st', r) ->
  exists article_id auth_ids,
    NoDup auth_ids
    /\ links st' = links st ++ List.map (link_row article_id) auth_ids.
Proof.
  rewrite store_article_body. intros H.
  assert (Hnone : exists (article_id : Value) (auth_ids : list Value),
             NoDup auth_ids /\ links st = links st ++ List.map (link_row article_id) auth_ids).
  { exists VNone, []. cbn. rewrite app_nil_r. split; [constructor|reflexivity]. }
  apply with_transaction_cases in H
    as [[-> [e ->]] | [(st1 & e & Hb & -> & ->) | (st1 & a & Hb & [[-> [e ->]] | [-> ->]])]];
    try exact Hnone.
  apply store_body_effect in Hb as (_ & Hl & _). exact Hl.
Qed.

End ArticleTransaction.

(** What the first [try] block extracts for [card_ok]: the author with the
    ORCID 0000-0001 is listed twice, as Alice B Smith and as Alice Smith. *)
Definition x_card_ok : Extracted :=
  match snd (extract env1 card_ok st0) with
  | inr (Some x) => x
  | _ => mkExtracted ∅ [] []
  end.

Lemma one_link_per_author_witness :
  exists article_id auth_ids,
    NoDup auth_ids
    /\ links (fst (store_article env1 x_card_ok st0))
       = links st0 ++ List.map (link_row article_id) auth_ids.
Proof.
  apply (one_link_per_author env1 x_card_ok st0 _ (snd (store_article env1 x_card_ok st0))).
  apply surjective_pairing.
Defined.

(** The author listed twice is linked once. *)
Example repeated_author_linked_once :
  authors_proper x_card_ok = ["Alice B Smith"; "Consortium"; "Alice Smith"]
  /\ links (fst (store_article env1 x_card_ok st0)) = [link_row (VInt 1) (VInt 1)].
Proof. split; vm_compute; reflexivity. Qed.

(** * The word count and the article transaction *)

Section WordCountOrder.

Variable env : Env.

(** Counting the words of a title never touches the tables behind [engine],
    and changes the committed counts only when it ends normally. *)
Lemma count_title_words_frame (x : Extracted) (st st' : State) (r : Res unit) :
  count_title_words env x st = (st', r) ->
  db st' = db st
  /\ (forall e, r = inl e -> words_committed st' = words_committed st).
Proof.
  unfold count_title_words, bind, lift.
  destruct (db_call env EvCursor st) as [st1 [e|[]]] eqn:Hc;
    apply db_call_trace in Hc; subst st1.
  { intros [= <- <-]. now split. }
  destruct (title_of (articles_entry x)) as [e|title].
  { intros [= <- <-]. now split. }
  destruct (word_loop env (cleaned_title title) (log EvCursor st)) as [st2 [e|[]]] eqn:Hw;
    apply word_loop_trace in Hw as (k & _ & _ & Hdb & Hwc).
  { intros [= <- <-]. now split. }
  destruct (db_call env EvConnectorCommit st2) as [st3 [e|[]]] eqn:Hcm;
    apply db_call_trace in Hcm; subst st3.
  - intros [= <- <-]. now split.
  - intros [= <- <-]. split; [exact Hdb | discriminate].
Qed.

Lemma insert_stage_after_store (x : Extracted) (st : State) :
  insert_stage env x st =
    match store_article env x st with
    | (st1, inl e) => (st1, inl e)
    | (st1, inr _) => count_title_words env x st1
    end.
Proof. unfold insert_stage, bind. now destruct (store_article env x st) as [st1 [e|s]]. Qed.

(** When the transaction of the article fails, the second [try] block ends
    there: the tables and both views of the word counts are as before. *)
Lemma failed_store_counts_nothing (x : Extracted) (st st1 : State) (e : Exc) :
  store_article env x st = (st1, inl e) ->
  insert_stage env x st = (st1, inl e)
  /\ db st1 = db st /\ words st1 = words st /\ words_committed st1 = words_committed st.
Proof.
  intros H. rewrite insert_stage_after_store, H.
  apply store_article_outcome in H as [[Hw Hc] Hdb]. auto.
Qed.

(** C9 (amended).  The word count uses the second connection and runs only
    after the transaction of the article has committed.  When that
    transaction fails, no word is counted and no table changes.  When it
    commits and the word count then fails, the article stays stored (one
    more row in ARTICLES) while the committed word counts are as before. *)
Theorem word_count_follows_the_commit (x : Extracted) (st : State) :
  match store_article env x st with
  | (st1, inl e) =>
      insert_stage env x st = (st1, inl e)
      /\ db st1 = db st /\ words st1 = words st
      /\ words_committed st1 = words_committed st
  | (st1, inr _) =>
      (exists row, t_rows (db_ARTICLES (db st1)) = t_rows (db_ARTICLES (db st)) ++ [row])
      /\ forall st2 e, count_title_words env x st1 = (st2, inl e) ->
           insert_stage env x st = (st2, inl e)
           /\ db st2 = db st1
           /\ words_committed st2 = words_committed st
  end.
Proof.
  destruct (store_article env x st) as [st1 [e|seen]] eqn:Hs.
  - now apply failed_store_counts_nothing.
  - pose proof (insert_stage_after_store x st) as Hi. rewrite Hs in Hi.
    apply store_article_outcome in Hs as [[Hw Hc] Hrow].
    split; [exact Hrow|]. intros st2 e Hcount. rewrite Hi.
    apply count_title_words_frame in Hcount as Hf. destruct Hf as [Hdb Hwc].
    split_and!; [exact Hcount | exact Hdb |]. rewrite (Hwc e eq_refl). exact Hc.
Qed.

End WordCountOrder.

(** C9 (as stated, refuted).  No run leaves title tokens counted for an
    article whose transaction failed. *)
Lemma no_words_counted_for_failed_insert :
  ~ (exists (env : Env) (x : Extracted) (st st1 : State) (e : Exc),
        store_article env x st = (st1, inl e)
        /\ (words (fst (insert_stage env x st)) <> words st
            \/ words_committed (fst (insert_stage env x st)) <> words_committed st)).
Proof.
  intros (env & x & st & st1 & e & Hs & Hne).
  apply failed_store_counts_nothing in Hs as (Hi & _ & Hw & Hc).
  rewrite Hi in Hne. cbn in Hne. destruct Hne as [Hne|Hne]; contradiction.
Qed.

(** The other half does happen: with a stored procedure that fails, the
    article of [card_ok] is stored and none of its title words is counted. *)
Example stored_article_without_word_count :
  let st' := fst (insert_stage env_words_fail x_card_ok st0) in
  List.length (t_rows (db_ARTICLES (db st'))) = 1%nat
  /\ words_committed st' = ∅
  /\ exists e, snd (insert_stage env_words_fail x_card_ok st0) = inl e.
Proof. vm_compute. split_and!; try reflexivity. eexists. reflexivity. Qed.

(** * Resolving an author *)

Section ResolveAuthor.

Variable env : Env.










End ResolveAuthor.


Definition first_author_row : Entry :=
  default ∅ (head (t_rows (db_AUTHORS (db st_stored)))).


Example first_author_row_id : first_author_row !! "ID" = Some (VInt 1).
Proof. vm_compute. reflexivity. Qed.

(** * What the steps of an article leave alone

    The loop variable [keepSeeking] and the two ghost records change in three
    places only: [keepSeeking = False] after an empty page and after a failed
    insertion, and the notes taken there. *)

Section Ghost.

Variable env : Env.

Definition ghost (st : State) : bool * list (Z * nat) * list (Z * nat) :=
  (keepSeeking st, pages_seen st, failed_at st).

Definition preserves {A} (m : M A) : Prop :=
  forall st st' r, m st = (st', r) -> ghost st' = ghost st.

Lemma preserves_ret {A} (a : A) : preserves (ret a).
Proof. intros st st' r [= <- _]. reflexivity. Qed.

Lemma preserves_lift {A} (x : Res A) : preserves (lift x).
Proof. intros st st' r [= <- _]. reflexivity. Qed.


Lemma preserves_print (line : string) : preserves (print line).
Proof. intros st st' r [= <- _]. reflexivity. Qed.

Lemma preserves_db_call (ev : Event) : preserves (db_call env ev).
Proof. intros st st' r H. apply db_call_trace in H. now subst. Qed.

Lemma preserves_getSoup (url : string) : preserves (getSoup env url).
Proof. intros st st' r H. apply getSoup_state in H. now subst. Qed.

Lemma preserves_select_first t col cond : preserves (select_first env t col cond).
Proof. intros st st' r H. apply select_first_state in H. now subst. Qed.

Lemma preserves_execute_insert t entry : preserves (execute_insert env t entry).
Proof.
  intros st st' r H.
  apply execute_insert_state in H as [[[-> | ->] _] | [-> _]]; reflexivity.
Qed.


Lemma preserves_callproc_word (w : string) : preserves (callproc_word env w).
Proof.
  intros st st' r. unfold callproc_word, bind.
  destruct (db_call env _ st) as [st1 [e|[]]] eqn:E; apply db_call_trace in E; subst st1;
    intros [= <- _]; reflexivity.
Qed.

Create HintDb ghost.

#[local] Hint Resolve preserves_ret preserves_lift preserves_print preserves_db_call
  preserves_getSoup preserves_select_first preserves_execute_insert
  preserves_callproc_word : ghost.








End Ghost.

(** * The loop over the pages *)

Section Pagination.

Variable env : Env.



End Pagination.

Section PaginationLoop.

Variable env : Env.
Variable max_pages : Z.








End PaginationLoop.


(** * Author names *)

Section AuthorNames.

Lemma join_cons_head (sep : string) (x : ascii) (l : list string) :
  l <> [] -> join sep (cons_head x l) = String x (join sep l).
Proof.
  destruct l as [|t [|y r]]; [congruence | reflexivity | reflexivity].
Qed.

(** Joining the pieces with the separator gives the string back. *)
Lemma join_split (c : ascii) (s : string) :
  join (String c "") (split (String c "") s) = s.
Proof.
  unfold split. induction s as [|x s IH]; [reflexivity|].
  rewrite split_go_char. pose proof (split_go_nonempty (String c "") 0 s) as Hne.
  destruct (Ascii.eqb_spec c x) as [->|Hcx].
  - destruct (split_go (String x "") 0 s) as [|t ts] eqn:E; [congruence|].
    change (join (String x "") ("" :: t :: ts))
      with ("" +:+ String x "" +:+ join (String x "") (t :: ts)).
    now rewrite IH.
  - rewrite join_cons_head by exact Hne. now rewrite IH.
Qed.

(** No piece contains the separator. *)
Lemma split_pieces_free (c : ascii) (s : string) :
  List.Forall (fun t => all_chars (fun x => negb (Ascii.eqb c x)) t = true)
    (split (String c "") s).
Proof.
  unfold split. induction s as [|x s IH]; [repeat constructor|].
  rewrite split_go_char. destruct (Ascii.eqb c x) eqn:Hcx.
  - constructor; [reflexivity | exact IH].
  - destruct (split_go (String c "") 0 s) as [|t ts]; cbn [cons_head].
    + repeat constructor. cbn. now rewrite Hcx.
    + inversion IH as [|? ? Ht Hts]; subst. constructor; [|exact Hts].
      cbn. now rewrite Hcx, Ht.
Qed.

Lemma free_not_contained (c : ascii) (s : string) :
  all_chars (fun x => negb (Ascii.eqb c x)) s = true -> contains (String c "") s = false.
Proof.
  induction s as [|x s IH]; [reflexivity|].
  cbn [all_chars contains String.prefix]. intros H.
  apply andb_prop in H as [Hx Hs]. rewrite (IH Hs), orb_false_r.
  apply negb_true_iff, Ascii.eqb_neq in Hx.
  destruct (ascii_dec c x) as [->|_]; [congruence | reflexivity].
Qed.

Lemma join_snoc (sep : string) (l : list string) (z : string) :
  l <> [] -> join sep (l ++ [z]) = join sep l +:+ sep +:+ z.
Proof.
  induction l as [|x [|y r] IH]; intros Hne; [congruence | reflexivity |].
  change (join sep ((x :: y :: r) ++ [z])) with (x +:+ sep +:+ join sep ((y :: r) ++ [z])).
  rewrite IH by discriminate.
  change (join sep (x :: y :: r)) with (x +:+ sep +:+ join sep (y :: r)).
  now rewrite !append_assoc.
Qed.

Lemma last_elt_snoc {A} (l : list A) (z : A) : last_elt (l ++ [z]) = inr z.
Proof. unfold last_elt. now rewrite List.rev_app_distr. Qed.

Lemma drop_last_snoc {A} (l : list A) (z : A) : drop_last (l ++ [z]) = l.
Proof. apply List.removelast_last. Qed.

(** X1. [getSingleAuthorDict] never raises.  The last name is the text after the
    last space and holds no space; for a name with a space, the first name is
    all that is before that space, so that first name, space and last name
    give the name back; a name without a space has an empty first name. *)
Theorem getSingleAuthorDict_name_parts (auth : string) :
  exists f l,
    getSingleAuthorDict auth
    = inr (<["LASTNAME" := VStr l]> (<["FIRSTNAME" := VStr f]> ∅))
    /\ contains " " l = false
    /\ (if contains " " auth then f +:+ " " +:+ l = auth else f = "" /\ l = auth).
Proof.
  unfold getSingleAuthorDict.
  pose proof (join_split " " auth) as Hjoin.
  pose proof (split_pieces_free " " auth) as Hfree.
  destruct (exists_last (split_go_nonempty " " 0 auth)) as (pre & z & E).
  fold (split " " auth) in E. rewrite E in *.
  rewrite last_elt_snoc, drop_last_snoc. cbn [bindR].
  exists (join " " pre), z. split; [reflexivity|].
  apply Forall_app in Hfree as [_ Hz]. apply Forall_inv in Hz. rename Hz into Hz'.
  split; [now apply free_not_contained|].
  destruct pre as [|p pre].
  - cbn in Hjoin. subst z. rewrite (free_not_contained _ _ Hz'). now split.
  - rewrite join_snoc in Hjoin by discriminate.
    destruct (contains " " auth) eqn:Hc; [exact Hjoin|].
    apply contains_absent, split_absent in Hc. rewrite Hc in E.
    apply (f_equal (@List.length string)) in E. rewrite length_app in E. cbn in E. lia.
Qed.

Lemma index_key_names (f l : Value) :
  index_key (<["LASTNAME" := l]> (<["FIRSTNAME" := f]> (∅ : Entry))) "FIRSTNAME" = inr f
  /\ index_key (<["LASTNAME" := l]> (<["FIRSTNAME" := f]> (∅ : Entry))) "LASTNAME" = inr l.
Proof.
  unfold index_key. rewrite lookup_insert_ne by discriminate.
  now rewrite !lookup_insert_eq.
Qed.

Lemma getAuthorDict_loop_step (j : nat) (nw auth : string) (rest : list string) (d : Entry) :
  number_words !! j = Some nw ->
  exists f l,
    getSingleAuthorDict auth
    = inr (<["LASTNAME" := VStr l]> (<["FIRSTNAME" := VStr f]> ∅))
    /\ getAuthorDict_loop j (auth :: rest) d
       = getAuthorDict_loop (S j) rest
           (<[nw +:+ "_LASTNAME" := VStr l]> (<[nw +:+ "_FIRSTNAME" := VStr f]> d)).
Proof.
  intros Hnw. destruct (getSingleAuthorDict_keys auth) as [l E].
  exists (join " " (drop_last (split " " auth))), l. split; [exact E|].
  cbn [getAuthorDict_loop]. rewrite Hnw, E. cbn [bindR].
  destruct (index_key_names (VStr (join " " (drop_last (split " " auth)))) (VStr l))
    as [-> ->].
  reflexivity.
Qed.

Lemma getAuthorDict_loop_take (authors : list string) :
  forall (j : nat) (d : Entry),
  getAuthorDict_loop j authors d = getAuthorDict_loop j (take (3 - j) authors) d.
Proof.
  induction authors as [|a rest IH]; intros j d.
  - now rewrite take_nil.
  - destruct (number_words !! j) as [nw|] eqn:Hnw.
    + assert (Hj : (j < 3)%nat) by (apply lookup_lt_Some in Hnw; exact Hnw).
      replace (3 - j)%nat with (S (3 - S j)) by lia. cbn [firstn].
      cbn [getAuthorDict_loop]. rewrite Hnw.
      destruct (getSingleAuthorDict a) as [e|da]; [reflexivity|]. cbn [bindR].
      destruct (index_key da "FIRSTNAME"); [reflexivity|]. cbn [bindR].
      destruct (index_key da "LASTNAME"); [reflexivity|]. cbn [bindR]. apply IH.
    + assert (Hj : (3 <= j)%nat) by (apply lookup_ge_None in Hnw; exact Hnw).
      replace (3 - j)%nat with 0%nat by lia. cbn [firstn getAuthorDict_loop].
      now rewrite Hnw.
Qed.

Ltac loop_step f l E :=
  match goal with
  | |- context [getAuthorDict_loop ?j (?a :: ?rest) ?d] =>
      destruct (getAuthorDict_loop_step j _ a rest d eq_refl) as (f & l & E & ->)
  end.

(** X2. [getAuthorDict] never raises and reads the first three authors only:
    the result is that of the first three, and it holds the first and last
    name of the author at position [j] under the keys made of the [j]-th
    number word; it has two keys for each of these authors. *)
Theorem getAuthorDict_first_three (authors : list string) :
  exists d,
    getAuthorDict authors = inr d
    /\ getAuthorDict (take 3 authors) = inr d
    /\ (forall j nw auth,
          number_words !! j = Some nw -> authors !! j = Some auth ->
          exists f l,
            getSingleAuthorDict auth
            = inr (<["LASTNAME" := VStr l]> (<["FIRSTNAME" := VStr f]> ∅))
            /\ d !! (nw +:+ "_FIRSTNAME") = Some (VStr f)
            /\ d !! (nw +:+ "_LASTNAME") = Some (VStr l))
    /\ size d = (2 * Nat.min 3 (List.length authors))%nat.
Proof.
  unfold getAuthorDict. rewrite (getAuthorDict_loop_take authors 0 ∅).
  change (3 - 0)%nat with 3%nat.
  destruct authors as [|a1 [|a2 [|a3 rest]]]; cbn [firstn].
  - exists ∅. split_and!; try reflexivity. intros j nw auth _ H. discriminate.
  - loop_step f1 l1 E1.
    eexists. split_and!; try reflexivity.
    intros [|j] nw auth Hnw Ha; [|destruct j; discriminate].
    injection Hnw as <-. injection Ha as <-. exists f1, l1. split; [exact E1|].
    split; reflexivity.
  - loop_step f1 l1 E1. loop_step f2 l2 E2.
    eexists. split_and!; try reflexivity.
    intros [|[|j]] nw auth Hnw Ha; [| |destruct j; discriminate].
    + injection Hnw as <-. injection Ha as <-. exists f1, l1. split; [exact E1|].
      split; reflexivity.
    + injection Hnw as <-. injection Ha as <-. exists f2, l2. split; [exact E2|].
      split; reflexivity.
  - loop_step f1 l1 E1. loop_step f2 l2 E2. loop_step f3 l3 E3.
    eexists. split_and!; try reflexivity.
    intros [|[|[|j]]] nw auth Hnw Ha; [| | |discriminate].
    + injection Hnw as <-. injection Ha as <-. exists f1, l1. split; [exact E1|].
      split; reflexivity.
    + injection Hnw as <-. injection Ha as <-. exists f2, l2. split; [exact E2|].
      split; reflexivity.
    + injection Hnw as <-. injection Ha as <-. exists f3, l3. split; [exact E3|].
      split; reflexivity.
Qed.

End AuthorNames.

(** * The rows sent to the database *)

Section Rows.

Variable env : Env.

Lemma take_str_cons (n : nat) (c : ascii) (s : string) :
  take_str (S n) (String c s) = String c (take_str n s).
Proof. unfold take_str. cbn [String.substring]. reflexivity. Qed.

Lemma take_str_length (n : nat) (s : string) : (String.length (take_str n s) <= n)%nat.
Proof.
  revert s. induction n as [|n IH]; intros s.
  - destruct s; cbn; lia.
  - destruct s as [|c s]; [cbn; lia|]. rewrite take_str_cons. cbn [String.length].
    specialize (IH s). lia.
Qed.

(** Cutting a value to the length of a column keeps a non-empty value
    non-empty. *)
Lemma truncate_value_kept (col : Column) (v : Value) :
  v <> VStr "" -> v <> VNone ->
  truncate_value col v <> VStr "" /\ truncate_value col v <> VNone.
Proof.
  intros H1 H2. unfold truncate_value.
  destruct v as [s| |]; [|split; congruence|congruence].
  destruct (col_length col) as [[|n]|]; try (split; congruence).
  destruct s as [|c s]; [congruence|]. rewrite take_str_cons. split; discriminate.
Qed.

Lemma truncate_value_fits (col : Column) (v : Value) :
  match truncate_value col v, col_length col with
  | VStr s, Some (S n) => (String.length s <= S n)%nat
  | _, _ => True
  end.
Proof.
  unfold truncate_value. destruct v as [s| |]; destruct (col_length col) as [[|m]|];
    auto.
  apply take_str_length.
Qed.

(** Where a value of the result of the loop comes from. *)
Lemma truncateEntries_loop_lookup (cols : list Column) (entry : Entry) (k : string) (v : Value) :
  forall new_entry,
  truncateEntries_loop cols entry new_entry !! k = Some v ->
  new_entry !! k = Some v
  \/ exists col v0,
       In col cols /\ col_name col = k /\ entry !! k = Some v0 /\ v = truncate_value col v0.
Proof.
  induction cols as [|c cols IH]; intros new_entry H; [now left|].
  cbn [truncateEntries_loop] in H.
  destruct (entry !! col_name c) as [val|] eqn:Hc.
  - apply IH in H as [H | (col & v0 & Hin & Hn & He & Hv)].
    + destruct (decide (col_name c = k)) as [Heq|Hne].
      * rewrite Heq, lookup_insert_eq in H. injection H as <-.
        right. exists c, val. rewrite <- Heq. split_and!; auto. now left.
      * rewrite lookup_insert_ne in H by exact Hne. now left.
    + right. exists col, v0. split_and!; auto. now right.
  - apply IH in H as [H | (col & v0 & Hin & Hn & He & Hv)]; [now left|].
    right. exists col, v0. split_and!; auto. now right.
Qed.

Lemma truncateEntries_loop_dom (cols : list Column) (entry : Entry) (k : string) :
  forall new_entry,
  is_Some (truncateEntries_loop cols entry new_entry !! k)
  <-> is_Some (new_entry !! k)
      \/ (is_Some (entry !! k) /\ exists col, In col cols /\ col_name col = k).
Proof.
  induction cols as [|c cols IH]; intros new_entry.
  - cbn. split; [now left|]. intros [H | (_ & col & [] & _)]. exact H.
  - cbn [truncateEntries_loop].
    destruct (entry !! col_name c) as [val|] eqn:Hc; rewrite IH.
    + destruct (decide (col_name c = k)) as [Heq|Hne].
      * rewrite Heq, lookup_insert_eq. split.
        -- intros _. right. rewrite <- Heq, Hc. split; [eauto|]. exists c. split; [now left|done].
        -- intros _. left. eauto.
      * rewrite lookup_insert_ne by exact Hne. split.
        -- intros [H | (He & col & Hin & Hn)]; [now left|].
           right. split; [exact He|]. exists col. split; [now right|done].
        -- intros [H | (He & col & [<-|Hin] & Hn)]; [now left|congruence|].
           right. split; [exact He|]. exists col. split; done.
    + split.
      * intros [H | (He & col & Hin & Hn)]; [now left|].
        right. split; [exact He|]. exists col. split; [now right|done].
      * intros [H | (He & col & [<-|Hin] & Hn)]; [now left| |].
        -- rewrite <- Hn, Hc in He. destruct He; discriminate.
        -- right. split; [exact He|]. exists col. split; done.
Qed.

(** X3. What [myInsert] sends with [rm_nones] and [trunc] set: every value is
    under the name of a column of the table, is the value of the entry under
    that name cut to the length of the column, and is neither [None] nor the
    empty string; a string under a column with a length fits that length. *)
Theorem inserted_values_fit_the_table (entry : Entry) (t : TableName) (k : string) (v : Value) :
  truncateEntries env (removeNones entry) t !! k = Some v ->
  exists col v0,
    In col (columns env t) /\ col_name col = k
    /\ entry !! k = Some v0 /\ v = truncate_value col v0
    /\ v <> VStr "" /\ v <> VNone
    /\ match v, col_length col with
       | VStr s, Some (S n) => (String.length s <= S n)%nat
       | _, _ => True
       end.
Proof.
  intros H. unfold truncateEntries in H.
  apply truncateEntries_loop_lookup in H as [H | (col & v0 & Hin & Hn & He & ->)].
  { rewrite lookup_empty in H. discriminate. }
  unfold removeNones in He. apply map_lookup_filter_Some in He as [He [H1 H2]].
  cbn [snd] in H1, H2.
  destruct (truncate_value_kept col v0 H1 H2) as [K1 K2].
  exists col, v0. split_and!; auto. apply truncate_value_fits.
Qed.

(** X4. [truncateEntries] keeps the keys of the entry that name a column of the
    table, and drops every other key. *)
Theorem truncateEntries_keeps_the_columns (entry : Entry) (t : TableName) (k : string) :
  is_Some (truncateEntries env entry t !! k)
  <-> is_Some (entry !! k) /\ exists col, In col (columns env t) /\ col_name col = k.
Proof.
  unfold truncateEntries. rewrite truncateEntries_loop_dom, lookup_empty.
  split; [intros [[? H]|H]; [discriminate|exact H] | intros H; now right].
Qed.

Lemma get_set_table (t : TableName) (tb : Table) (d : Database) :
  get_table t (set_table t tb d) = tb.
Proof. now destruct t. Qed.

Lemma sql_eq_same (v : Value) : sql_eq (Some v) v = true.
Proof. destruct v; cbn; try apply bool_decide_eq_true_2; reflexivity. Qed.

Lemma insert_row_lookup (t : TableName) (entry : Entry) (tb : Table) (k : string) (v : Value) :
  entry !! k = Some v ->
  exists row, t_rows (fst (insert_row t entry tb)) = t_rows tb ++ [row] /\ row !! k = Some v.
Proof.
  intros H. unfold insert_row. cbn [fst t_rows]. eexists. split; [reflexivity|].
  destruct (auto_id t); [|exact H].
  destruct (entry !! "ID") eqn:Hid; [exact H|].
  rewrite lookup_insert_ne; [exact H|]. intros <-. congruence.
Qed.

(** X5. A value inserted under a column is found by [elemInDB] afterwards
    (when the SELECT itself goes through).  The INSERT was compiled and
    sent, so every key of the entry, the one looked up among them, names a
    column of the table. *)
Theorem inserted_element_is_found
    (entry : Entry) (t : TableName) (field : string) (v : Value)
    (st st1 : State) (pk : list Value) :
  myInsert env entry t false false st = (st1, inr pk) ->
  entry !! field = Some v ->
  db_raises env (trace st1) (EvSelect t [(field, v)]) = false ->
  In field (List.map col_name (columns env t))
  /\ elemInDB env v field t st1 = (log (EvSelect t [(field, v)]) st1, inr true).
Proof.
  intros Hins Hv Hsel. unfold myInsert in Hins.
  assert (Hex : existsb (String.eqb field) (List.map col_name (columns env t)) = true).
  { unfold execute_insert in Hins.
    destruct (unconsumed env t entry) as [|k names] eqn:Hu; [|discriminate].
    unfold unconsumed in Hu.
    assert (Hin : In field (List.map fst (map_to_list entry))).
    { apply in_map_iff. exists (field, v). split; [reflexivity|].
      apply list_elem_of_In, elem_of_map_to_list. exact Hv. }
    destruct (existsb (String.eqb field) (List.map col_name (columns env t))) eqn:Hex;
      [reflexivity|]. exfalso.
    assert (Hf : In field (List.filter
              (fun k => negb (existsb (String.eqb k) (List.map col_name (columns env t))))
              (List.map fst (map_to_list entry)))).
    { apply filter_In. split; [exact Hin|]. now rewrite Hex. }
    rewrite Hu in Hf. destruct Hf. }
  split.
  - apply existsb_exists in Hex as (y & Hy & Heq). apply String.eqb_eq in Heq.
    now subst y.
  - apply execute_insert_state in Hins as [[_ [e He]] | [-> _]]; [discriminate|].
    destruct (insert_row_lookup t entry (get_table t (db st)) field v Hv)
      as (row & Hrows & Hrow).
    unfold elemInDB, has_column. rewrite Hex.
    unfold select_first, bind, db_call, ret. rewrite Hsel.
    cbn [db log set_db]. rewrite get_set_table, Hrows.
    destruct (find_present (row_matches [(field, v)])
                (t_rows (get_table t (db st)) ++ [row]) row) as [y Hy].
    + apply in_or_app. right. now left.
    + unfold row_matches. cbn [forallb fst snd]. now rewrite Hrow, sql_eq_same.
    + rewrite Hy. cbn [option_map]. now rewrite bool_decide_eq_true_2 by discriminate.
Qed.

End Rows.

Definition entry_long : Entry :=
  <["TITLE" := VStr "Tumour cells"]> (<["DOI" := VNone]> (<["PAGES" := VStr "12"]> ∅)).

Lemma inserted_values_fit_the_table_witness :
  exists col v0,
    In col (columns env1 ARTICLES) /\ col_name col = "TITLE"
    /\ entry_long !! "TITLE" = Some v0 /\ VStr "Tumour cells" = truncate_value col v0
    /\ VStr "Tumour cells" <> VStr "" /\ VStr "Tumour cells" <> VNone
    /\ match VStr "Tumour cells", col_length col with
       | VStr s, Some (S n) => (String.length s <= S n)%nat
       | _, _ => True
       end.
Proof.
  apply (inserted_values_fit_the_table env1 entry_long ARTICLES "TITLE" (VStr "Tumour cells")).
  vm_compute. reflexivity.
Defined.

Definition entry_stored : Entry :=
  <["TITLE" := VStr "Tumour cells"]> (<["DOI" := VStr "10.1038/a1"]> ∅).

Lemma inserted_element_is_found_witness :
  In "DOI" (List.map col_name (columns env1 ARTICLES))
  /\ elemInDB env1 (VStr "10.1038/a1") "DOI" ARTICLES
       (fst (myInsert env1 entry_stored ARTICLES false false st0))
     = (log (EvSelect ARTICLES [("DOI", VStr "10.1038/a1")])
          (fst (myInsert env1 entry_stored ARTICLES false false st0)), inr true).
Proof.
  apply (inserted_element_is_found env1 entry_stored ARTICLES "DOI" (VStr "10.1038/a1")
           st0 _ [VInt 1]).
  - vm_compute. reflexivity.
  - vm_compute. reflexivity.
  - reflexivity.
Defined.

(** * The DOI of an article page *)

Section Doi.

Lemma split_go_absent (sep : string) (s : string) :
  contains sep s = false -> split_go sep 0 s = [s].
Proof.
  induction s as [|c s IH]; [reflexivity|].
  cbn [contains split_go]. intros H. apply orb_false_iff in H as [Hp Hs].
  rewrite Hp, (IH Hs). reflexivity.
Qed.

Lemma contains_append (sub a s : string) :
  contains sub s = true -> contains sub (a +:+ s) = true.
Proof.
  intros H. induction a as [|c a IH]; [exact H|].
  rewrite append_cons. cbn [contains]. rewrite IH. apply orb_true_r.
Qed.

Ltac prefix_false H :=
  rewrite ?append_cons, ?append_empty_l in H; cbn [String.prefix] in H;
  repeat match type of H with
         | context [ascii_dec ?a ?b] =>
             let E := fresh "E" in
             destruct (ascii_dec a b) as [E|E]; [try discriminate E; try subst | ]
         end;
  try discriminate H.

(** The marker does not overlap itself: a second occurrence cannot begin
    within the seven characters before one. *)
Lemma doi_marker_no_overlap (c : ascii) (a d : string) :
  String.prefix "doi.org/" (String c (a +:+ "doi.org/" +:+ d)) = true ->
  (7 <= String.length a)%nat.
Proof.
  intros H.
  destruct a as [|x1 a]; [exfalso; prefix_false H|].
  destruct a as [|x2 a]; [exfalso; prefix_false H|].
  destruct a as [|x3 a]; [exfalso; prefix_false H|].
  destruct a as [|x4 a]; [exfalso; prefix_false H|].
  destruct a as [|x5 a]; [exfalso; prefix_false H|].
  destruct a as [|x6 a]; [exfalso; prefix_false H|].
  destruct a as [|x7 a]; [exfalso; prefix_false H|].
  cbn [String.length]. lia.
Qed.

Lemma split_go_doi_marker (d : string) :
  contains "doi.org/" d = false ->
  forall (a : string) (k : nat),
  (k <= String.length a)%nat ->
  exists p pre, split_go "doi.org/" k (a +:+ "doi.org/" +:+ d) = (p :: pre) ++ [d].
Proof.
  intros Hd. induction a as [|c a IH]; intros k Hk.
  - cbn [String.length] in Hk. assert (k = 0%nat) as -> by lia.
    rewrite append_empty_l. exists "", [].
    change ("doi.org/" +:+ d) with (String "d" (String "o" (String "i" (String "."
             (String "o" (String "r" (String "g" (String "/" d)))))))).
    cbn [split_go String.prefix String.length Nat.sub].
    replace (String.prefix "" d) with true by (now destruct d).
    cbn. now rewrite (split_go_absent _ _ Hd).
  - rewrite append_cons. cbn [String.length] in Hk. destruct k as [|k].
    + cbn [split_go].
      destruct (String.prefix "doi.org/" (String c (a +:+ "doi.org/" +:+ d))) eqn:Hp.
      * apply doi_marker_no_overlap in Hp.
        destruct (IH (String.length "doi.org/" - 1)%nat) as (p & pre & ->); [cbn; lia|].
        exists "", (p :: pre). reflexivity.
      * destruct (IH 0%nat) as (p & pre & ->); [lia|].
        exists (String c p), pre. reflexivity.
    + cbn [split_go]. apply IH. lia.
Qed.

(** X6. [doi] never raises, and it returns [None] exactly when no
    bibliographic value contains [doi.org]. *)
Theorem doi_never_raises (soup : Soup) :
  exists r,
    NatureArticle.doi soup = inr r
    /\ (r = None
        <-> forallb (fun v => negb (contains "doi.org" v)) (bib_values soup) = true).
Proof.
  unfold NatureArticle.doi. induction (bib_values soup) as [|v rest IH].
  - exists None. split; [reflexivity|]. now split.
  - cbn [NatureArticle.doi_of forallb]. destruct (contains "doi.org" v).
    + destruct (last_elt_split "doi.org/" v) as [l ->]. exists (Some l).
      split; [reflexivity|]. cbn. split; discriminate.
    + destruct IH as (r & -> & Hr). exists r. split; [reflexivity|]. exact Hr.
Qed.

(** X7. The DOI is read from the first bibliographic value that contains
    [doi.org], and it is the text after the last [doi.org/] in it. *)
Theorem doi_after_last_marker (before rest : list string) (a d : string) (soup : Soup) :
  bib_values soup = before ++ (a +:+ "doi.org/" +:+ d) :: rest ->
  forallb (fun v => negb (contains "doi.org" v)) before = true ->
  contains "doi.org/" d = false ->
  NatureArticle.doi soup = inr (Some d).
Proof.
  intros Hv Hb Hd. unfold NatureArticle.doi. rewrite Hv. clear Hv.
  induction before as [|v before IH].
  - cbn [app NatureArticle.doi_of].
    rewrite (contains_append "doi.org" a ("doi.org/" +:+ d)) by reflexivity.
    destruct (split_go_doi_marker d Hd a 0 ltac:(lia)) as (p & pre & E).
    unfold split. rewrite E, last_elt_snoc. reflexivity.
  - cbn [forallb] in Hb. apply andb_prop in Hb as [Hv Hb].
    apply negb_true_iff in Hv. cbn [app NatureArticle.doi_of]. rewrite Hv. now apply IH.
Qed.

End Doi.

Lemma doi_after_last_marker_witness : NatureArticle.doi article1 = inr (Some "10.1038/a1").
Proof.
  apply (doi_after_last_marker ["14 March 2023"] [] "https://" "10.1038/a1" article1).
  - reflexivity.
  - reflexivity.
  - reflexivity.
Defined.

(** * The ORCID of each author *)

Section Orcid.

(** X8. [orcid_id] gives one entry for each author item of the page, in their
    order, and the entry is [None] exactly for the items without an ORCID
    link. *)
Theorem orcid_id_one_per_author_item (soup : Soup) (l : list (option string)) :
  NatureArticle.orcid_id soup = inr l ->
  List.length l = List.length (author_items soup)
  /\ forall i, l !! i = Some None <-> author_items soup !! i = Some [].
Proof.
  unfold NatureArticle.orcid_id. revert l.
  induction (author_items soup) as [|js items IH]; intros l H.
  - injection H as <-. split; [reflexivity|]. intros i. now rewrite !lookup_nil.
  - cbn [NatureArticle.orcid_id_items] in H. destruct js as [|a js].
    + destruct (NatureArticle.orcid_id_items items) as [e|ret]; [discriminate|].
      injection H as <-. destruct (IH ret eq_refl) as [Hlen Hi].
      split; [cbn; now rewrite Hlen|]. intros [|i]; [now split|]. apply Hi.
    + destruct (attr "href" a) as [e|href]; [discriminate|]. cbn [bindR] in H.
      destruct (last_elt (split "orcid.org/" href)) as [e|o]; [discriminate|]. cbn [bindR] in H.
      destruct (NatureArticle.orcid_id_items items) as [e|ret]; [discriminate|].
      injection H as <-. destruct (IH ret eq_refl) as [Hlen Hi].
      split; [cbn; now rewrite Hlen|]. intros [|i]; [split; discriminate|]. apply Hi.
Qed.

End Orcid.

Lemma orcid_id_one_per_author_item_witness :
  List.length [Some "0000-0001"; None; Some "0000-0001"] = List.length (author_items article1)
  /\ forall i, [Some "0000-0001"; None; Some "0000-0001"] !! i = Some None
               <-> author_items article1 !! i = Some [].
Proof.
  apply (orcid_id_one_per_author_item article1). reflexivity.
Defined.

(** * The metrics bar *)

Section MetricsBar.

(** A count of the metrics bar: digits, in thousands or not, and a
    label. *)
Record Metric := { m_digits : string; m_thousands : bool; m_label : string }.

Definition metric_number (it : Metric) : string :=
  if m_thousands it then m_digits it +:+ "k" else m_digits it.

(** The text of the paragraph: [12k Accesses]. *)
Definition metric_text (it : Metric) : string :=
  metric_number it +:+ " " +:+ m_label it.

Definition metric_value (it : Metric) : Z :=
  if m_thousands it then decimal_value 0 (m_digits it) * 1000
  else decimal_value 0 (m_digits it).

(** At least one digit and at most 4300; a label without a space, whose
    capitals are letters of Latin-1. *)
Definition well_formed (it : Metric) : Prop :=
  m_digits it <> "" /\ all_chars is_digit (m_digits it) = true
  /\ (String.length (m_digits it) <= 4300)%nat
  /\ contains " " (m_label it) = false
  /\ upper_representable (m_label it) = true.

Definition store_metric (metrics_data : Entry) (it : Metric) : Entry :=
  <[upper (m_label it) := VInt (metric_value it)]> metrics_data.

Lemma digit_not_blank (c : ascii) : is_digit c = true -> negb (Ascii.eqb " " c) = true.
Proof. destruct c as [[] [] [] [] [] [] [] []]; intros H; try discriminate H; reflexivity. Qed.

Lemma digits_free_of_blank (s : string) :
  all_chars is_digit s = true -> all_chars (fun x => negb (Ascii.eqb " " x)) s = true.
Proof.
  induction s as [|c s IH]; [reflexivity|]. cbn [all_chars]. intros H.
  apply andb_prop in H as [Hc Hs]. now rewrite (digit_not_blank c Hc), (IH Hs).
Qed.

Lemma numeral_of_text (ds : string) (j : nat) :
  numeral_text (numeral_of ds) +:+ ks j = ds +:+ ks j.
Proof.
  unfold numeral_text, numeral_of. cbn [n_before n_sign n_groups n_after sign_text join].
  now rewrite !append_empty_l, append_empty_r.
Qed.

Lemma metric_number_count (it : Metric) :
  well_formed it ->
  NatureArticle.metrics_count (metric_number it) = inr (metric_value it)
  /\ all_chars (fun x => negb (Ascii.eqb " " x)) (metric_number it) = true.
Proof.
  intros (Hne & Hd & Hlen & _).
  pose proof (numeral_of_ok _ Hne Hd) as Hok.
  assert (Hdigits : (numeral_digits (numeral_of (m_digits it)) <=? max_str_digits)%nat = true).
  { apply Nat.leb_le. exact Hlen. }
  unfold metric_number, metric_value. destruct (m_thousands it).
  - pose proof (metrics_count_numeral _ 1 Hok) as H.
    rewrite numeral_of_text, Hdigits in H. split; [exact H|].
    rewrite all_chars_append, (digits_free_of_blank _ Hd). reflexivity.
  - pose proof (metrics_count_numeral _ 0 Hok) as H.
    rewrite numeral_of_text, Hdigits in H. cbn [ks] in H. rewrite append_empty_r in H.
    split; [exact H | exact (digits_free_of_blank _ Hd)].
Qed.

Lemma split_metric_text (it : Metric) :
  well_formed it -> split " " (metric_text it) = [metric_number it; m_label it].
Proof.
  intros Hit. destruct (metric_number_count it Hit) as [_ Hfree].
  destruct Hit as (_ & _ & _ & Hl & _).
  unfold metric_text.
  change (metric_number it +:+ " " +:+ m_label it)
    with (metric_number it +:+ String " " (m_label it)).
  rewrite (split_first " " _ _ Hfree).
  now rewrite (split_absent " " _ (contains_absent " " _ Hl)).
Qed.

Lemma metrics_loop_counts (items : list Metric) :
  List.Forall well_formed items ->
  forall metrics_data,
  NatureArticle.metrics_loop (List.map metric_text items) metrics_data
  = inr (fold_left store_metric items metrics_data).
Proof.
  induction 1 as [|it items Hit _ IH]; intros metrics_data; [reflexivity|].
  cbn [List.map NatureArticle.metrics_loop fold_left].
  rewrite (split_metric_text it Hit). cbn [index lookup list_lookup bindR].
  destruct (metric_number_count it Hit) as [-> _]. cbn [bindR].
  apply IH.
Qed.

(** X9. [metrics] reads the counts of the first metrics bar of the page only.
    Each count of at most 4300 digits, with or without [k], followed by a
    space and a label is stored under the upper-cased label, a count in [k]
    a thousand times; a label that comes again replaces the earlier
    count. *)
Theorem metrics_reads_the_first_bar
    (items : list Metric) (others : list (list string)) (soup : Soup) :
  metrics_wrappers soup = List.map metric_text items :: others ->
  List.Forall well_formed items ->
  NatureArticle.metrics soup = inr (fold_left store_metric items ∅).
Proof.
  intros Hw Hitems. unfold NatureArticle.metrics. rewrite Hw. cbn [first bindR].
  now apply metrics_loop_counts.
Qed.

End MetricsBar.

Lemma metrics_reads_the_first_bar_witness :
  NatureArticle.metrics article1
  = inr (<["CITATIONS" := VInt 250]> (<["ACCESSES" := VInt 12000]> ∅)).
Proof.
  apply (metrics_reads_the_first_bar
           [ {| m_digits := "12"; m_thousands := true; m_label := "Accesses" |};
             {| m_digits := "250"; m_thousands := false; m_label := "Citations" |} ]
           [] article1).
  - reflexivity.
  - repeat constructor; cbn; try discriminate; lia.
Defined.

(** * The dates of an article page *)

Section DateItems.

Import Datetime.

(** The label of an item of the bibliographic list: its text before the
    first colon. *)
Definition item_label (li : string) : string :=
  match split ":" li with
  | field :: _ => field
  | [] => ""
  end.

(** X10. [dateList] reads the items labelled Received, Accepted or Published
    and passes over every other item, whatever its text. *)
Theorem dateList_reads_desired_items_only (li_list : list string) (date_data : Entry) :
  NatureArticle.dateList_loop li_list date_data
  = NatureArticle.dateList_loop
      (List.filter (fun li => NatureArticle.in_fields (item_label li)) li_list) date_data.
Proof.
  revert date_data. induction li_list as [|li rest IH]; intros date_data; [reflexivity|].
  cbn [List.filter]. unfold item_label.
  pose proof (split_go_nonempty ":" 0 li) as Hne. fold (split ":" li) in Hne.
  destruct (split ":" li) as [|field pieces] eqn:E; [congruence|].
  destruct (NatureArticle.in_fields field) eqn:Hin.
  - cbn [NatureArticle.dateList_loop]. rewrite E. cbn [index lookup list_lookup bindR].
    rewrite Hin. destruct (index (field :: pieces) 1) as [e|raw]; [reflexivity|].
    cbn [bindR]. destruct (strptime (strip raw)) as [e|date_obj]; [reflexivity|].
    cbn [bindR]. apply IH.
  - cbn [NatureArticle.dateList_loop]. rewrite E. cbn [index lookup list_lookup bindR].
    rewrite Hin. apply IH.
Qed.

(** The parser on a date written day first, with the day between 1 and 31:
    the date when it is one of the calendar, [ValueError] otherwise. *)
Lemma strptime_day_first (y m d : Z) :
  1 <= y <= 9999 -> 1 <= m <= 12 -> 1 <= d <= 31 ->
  strptime (date_text y m d)
  = if valid_date y m d then inr (mkDate y m d)
    else raise ValueError "day is out of range for month".
Proof.
  intros Hy Hm Hd.
  unfold strptime, date_text.
  rewrite parse_day_padded by assumption.
  destruct (digit_char_spec (y / 10 / 10 / 10)) as (_ & _ & Hsp & _).
  assert (Hmonth : exists c r, month_name m = String c r /\ is_space c = false).
  { assert (Hc : m = 1 \/ m = 2 \/ m = 3 \/ m = 4 \/ m = 5 \/ m = 6 \/ m = 7 \/ m = 8
               \/ m = 9 \/ m = 10 \/ m = 11 \/ m = 12) by lia.
    repeat (destruct Hc as [-> | Hc]); try subst m; eexists _, _; split; reflexivity. }
  destruct Hmonth as (c & r & Hname & Hc).
  replace (" " +:+ month_name m +:+ " " +:+ zero_padded 4 y)
    with (" " +:+ String c (r +:+ " " +:+ zero_padded 4 y)) by (now rewrite Hname).
  rewrite skip_space_before_nonspace by assumption.
  replace (String c (r +:+ " " +:+ zero_padded 4 y))
    with (month_name m +:+ " " +:+ zero_padded 4 y) by (now rewrite Hname).
  rewrite parse_month_name by assumption.
  rewrite zero_padded_4 at 1.
  rewrite skip_space_before_nonspace by assumption.
  rewrite <- zero_padded_4.
  rewrite parse_year_padded by lia.
  replace (y <? 1) with false by (symmetry; apply Z.ltb_ge; lia).
  reflexivity.
Qed.

(** X11. A day that the month does not have, as in [31 February 2023], makes
    [dateList] raise [ValueError] at that item: the items before it are
    lost with it, the items after it are not read. *)
Theorem dateList_day_out_of_range
    (y m d : Z) (field : string) (rest : list string) (date_data : Entry) :
  In field NatureArticle.fields_desired ->
  1 <= y <= 9999 -> 1 <= m <= 12 -> days_in_month y m < d <= 31 ->
  NatureArticle.dateList_loop ((field +:+ ": " +:+ date_text y m d) :: rest) date_data
  = raise ValueError "day is out of range for month".
Proof.
  intros Hf Hy Hm Hd.
  cbn [NatureArticle.dateList_loop].
  rewrite (split_date_item y m d field Hm Hf).
  cbn [index lookup list_lookup bindR].
  assert (Hin : NatureArticle.in_fields field = true).
  { cbn in Hf. destruct Hf as [<- | [<- | [<- | []]]]; reflexivity. }
  rewrite Hin. cbn [bindR].
  assert (Hday : 1 <= d <= 31).
  { split; [|lia]. unfold days_in_month in Hd.
    destruct (m =? 2); [destruct (is_leap y); lia|].
    destruct ((m =? 4) || (m =? 6) || (m =? 9) || (m =? 11)); lia. }
  rewrite strip_date_text, (strptime_day_first y m d Hy Hm Hday).
  assert (Hv : valid_date y m d = false).
  { unfold valid_date. apply andb_false_iff. right. apply Z.leb_gt. lia. }
  now rewrite Hv.
Qed.

End DateItems.

Lemma dateList_day_out_of_range_witness :
  NatureArticle.dateList_loop ["Accepted: 31 February 2023"; "Published: 01 April 2023"] ∅
  = raise ValueError "day is out of range for month".
Proof.
  apply (dateList_day_out_of_range 2023 2 31 "Accepted" ["Published: 01 April 2023"] ∅).
  - right. left. reflexivity.
  - lia.
  - lia.
  - vm_compute. split; [reflexivity | discriminate].
Defined.

(** * The words of a title *)

Section TitleWords.

Fixpoint count_chars (q : ascii -> bool) (s : string) : nat :=
  match s with
  | EmptyString => 0
  | String c s' => (if q c then 1 else 0) + count_chars q s'
  end.

Definition lower_or_digit (c : ascii) : bool := is_digit c || is_lower c.

Lemma lower_char_alnum (c : ascii) :
  is_alnum c = true -> lower_or_digit (lower_char c) = true.
Proof. destruct c as [[] [] [] [] [] [] [] []]; intros H; try discriminate H; reflexivity. Qed.

Lemma lower_alnum (w : string) :
  all_chars is_alnum w = true -> all_chars lower_or_digit (lower w) = true.
Proof.
  induction w as [|c w IH]; [reflexivity|]. cbn [all_chars lower map_str]. intros H.
  apply andb_prop in H as [Hc Hw]. rewrite (lower_char_alnum c Hc). exact (IH Hw).
Qed.

Lemma cleaned_title_length (title : string) :
  List.length (cleaned_title title) = S (count_chars (fun c => negb (is_alnum c)) title).
Proof.
  induction title as [|x s IH]; [reflexivity|].
  rewrite cleaned_title_cons. cbn [count_chars].
  pose proof (cleaned_title_nonempty s) as Hne.
  destruct (is_alnum x); cbn [negb].
  - destruct (cleaned_title s) as [|t ts]; [congruence|]. exact IH.
  - cbn [List.length]. now rewrite IH.
Qed.

Lemma cleaned_title_alnum (title : string) :
  List.Forall (fun w => all_chars is_alnum w = true) (cleaned_title title).
Proof.
  induction title as [|x s IH]; [repeat constructor|].
  rewrite cleaned_title_cons. destruct (is_alnum x) eqn:Hx.
  - destruct (cleaned_title s) as [|t ts]; cbn [cons_head].
    + repeat constructor. cbn. now rewrite Hx.
    + inversion IH as [|? ? Ht Hts]. constructor; [|exact Hts]. cbn. now rewrite Hx, Ht.
  - constructor; [reflexivity | exact IH].
Qed.

(** X12. The title is cut into one token more than it has characters outside
    [a-zA-Z0-9]; the tokens hold letters and digits only, so that the stored
    procedure receives lower-case letters and digits only; and the tokens
    joined by single spaces are the title with each such character turned
    into a space. *)
Theorem cleaned_title_tokens (title : string) :
  List.length (cleaned_title title) = S (count_chars (fun c => negb (is_alnum c)) title)
  /\ List.Forall (fun w => all_chars is_alnum w = true
                           /\ all_chars lower_or_digit (lower w) = true)
       (cleaned_title title)
  /\ join " " (cleaned_title title) = map_str blank_non_alnum title.
Proof.
  split; [apply cleaned_title_length|]. split.
  - eapply List.Forall_impl; [|apply cleaned_title_alnum].
    intros w Hw. cbn beta in Hw. split; [exact Hw | now apply lower_alnum].
  - apply join_split.
Qed.

End TitleWords.

(** * The first [try] block reads only *)

Section ReadOnly.

Variable env : Env.

(** The calls that write nothing. *)
Definition reading (ev : Event) : bool :=
  match ev with
  | EvGet _ | EvBegin | EvCommit | EvRollback | EvSelect _ _ => true
  | _ => false
  end.

(** From [st] to [st'] nothing was written: the tables, the word counts and
    the loop variable are the same, and the calls made were reading ones. *)
Definition only_read (st st' : State) : Prop :=
  db st' = db st /\ words st' = words st /\ words_committed st' = words_committed st
  /\ keepSeeking st' = keepSeeking st
  /\ exists evs, trace st' = trace st ++ evs /\ forallb reading evs = true.

Definition reads {A} (m : M A) : Prop :=
  forall st st' r, m st = (st', r) -> only_read st st'.

Lemma only_read_refl (st : State) : only_read st st.
Proof. unfold only_read. split_and!; auto. exists []. now rewrite app_nil_r. Qed.

Lemma only_read_trans (st1 st2 st3 : State) :
  only_read st1 st2 -> only_read st2 st3 -> only_read st1 st3.
Proof.
  intros (A1 & A2 & A3 & A4 & e1 & A5 & A6) (B1 & B2 & B3 & B4 & e2 & B5 & B6).
  unfold only_read. split_and!; try congruence.
  exists (e1 ++ e2). rewrite B5, A5, <- app_assoc. split; [reflexivity|].
  now rewrite forallb_app, A6, B6.
Qed.

Lemma only_read_log (ev : Event) (st : State) : reading ev = true -> only_read st (log ev st).
Proof.
  intros H. unfold only_read. cbn. split_and!; auto. exists [ev]. cbn. now rewrite H.
Qed.

Lemma only_read_emit (line : string) (st : State) : only_read st (emit line st).
Proof. unfold only_read. cbn. split_and!; auto. exists []. now rewrite app_nil_r. Qed.

Lemma reads_ret {A} (a : A) : reads (ret a).
Proof. intros st st' r [= <- _]. apply only_read_refl. Qed.

Lemma reads_lift {A} (x : Res A) : reads (lift x).
Proof. intros st st' r [= <- _]. apply only_read_refl. Qed.

Lemma reads_print (line : string) : reads (print line).
Proof. intros st st' r [= <- _]. apply only_read_emit. Qed.

Lemma reads_bind {A B} (m : M A) (k : A -> M B) :
  reads m -> (forall a, reads (k a)) -> reads (bind m k).
Proof.
  intros Hm Hk st st' r. unfold bind.
  destruct (m st) as [st1 [e|a]] eqn:E.
  - intros [= <- _]. eapply Hm, E.
  - intros H. eapply only_read_trans; [eapply Hm, E | eapply Hk, H].
Qed.

Lemma reads_getSoup (url : string) : reads (getSoup env url).
Proof. intros st st' r H. apply getSoup_state in H. subst. now apply only_read_log. Qed.

Lemma reads_select_first t col cond : reads (select_first env t col cond).
Proof. intros st st' r H. apply select_first_state in H. subst. now apply only_read_log. Qed.

Lemma only_read_set_db (st0 st1 : State) :
  only_read st0 st1 -> only_read st0 (set_db (db st0) st1).
Proof.
  intros (A1 & A2 & A3 & A4 & A5). unfold only_read. cbn. split_and!; auto.
Qed.

Lemma reads_with_transaction {A} (body : M A) :
  reads body -> reads (with_transaction env body).
Proof.
  intros Hb st st' r H.
  apply with_transaction_cases in H
    as [[-> _] | [(st1 & e & H1 & -> & _) | (st1 & a & H1 & [[-> _] | [-> _]])]].
  - now apply only_read_log.
  - apply Hb in H1.
    assert (H2 : only_read st (log EvRollback st1)).
    { eapply only_read_trans; [now apply (only_read_log EvBegin)|].
      eapply only_read_trans; [exact H1 | now apply only_read_log]. }
    destruct H2 as (A1 & A2 & A3 & A4 & A5). unfold only_read. cbn in *. split_and!; auto.
  - apply Hb in H1.
    assert (H2 : only_read st (log EvCommit st1)).
    { eapply only_read_trans; [now apply (only_read_log EvBegin)|].
      eapply only_read_trans; [exact H1 | now apply only_read_log]. }
    destruct H2 as (A1 & A2 & A3 & A4 & A5). unfold only_read. cbn in *. split_and!; auto.
  - apply Hb in H1.
    eapply only_read_trans; [now apply (only_read_log EvBegin)|].
    eapply only_read_trans; [exact H1 | now apply only_read_log].
Qed.

Create HintDb reading.

#[local] Hint Resolve reads_ret reads_lift reads_print reads_getSoup reads_select_first
  : reading.

Ltac read_only :=
  repeat first
    [ apply reads_with_transaction
    | progress eauto with reading
    | apply reads_bind; [|intros ?]
    | match goal with
      | |- reads (if ?b then _ else _) => destruct b
      | |- reads (match ?x with _ => _ end) => destruct x
      end ].

Lemma reads_extract (el : Card) : reads (extract env el).
Proof.
  unfold extract, extract_detail, extract_rest, already_seen, elemInDB. read_only.
Qed.

(** X13. Whatever the first [try] block does for a card, and however it ends, it
    writes nothing: the tables, the word counts and [keepSeeking] are as
    before, and the calls it made are page requests, BEGIN, SELECT, COMMIT
    and ROLLBACK, never an INSERT or a call of the stored procedure. *)
Theorem extraction_writes_nothing (el : Card) (st : State) :
  db (fst (extract env el st)) = db st
  /\ words (fst (extract env el st)) = words st
  /\ words_committed (fst (extract env el st)) = words_committed st
  /\ keepSeeking (fst (extract env el st)) = keepSeeking st
  /\ exists evs,
       trace (fst (extract env el st)) = trace st ++ evs
       /\ forallb reading evs = true.
Proof.
  destruct (extract env el st) as [st' r] eqn:E. apply reads_extract in E. exact E.
Qed.

(** X14. An exception of the first [try] block other than [IndexError] (a detail
    page that cannot be fetched, a count or a date that does not parse) is
    printed and ends the loop over the cards of the page: the cards after it
    are not read.  Nothing is written and [keepSeeking] stays as it is, so
    the loop over the pages goes on. *)
Theorem extraction_error_ends_the_page
    (page_num : Z) (i : nat) (el : Card) (rest : list Card) (st st1 : State) (e : Exc) :
  (i < 1000)%nat ->
  extract env el (emit ("Article: " +:+ str_of_int (Z.of_nat i)) st) = (st1, inl e) ->
  is_IndexError e = false ->
  for_articles env page_num i (el :: rest) st = emit (exc_msg e) st1
  /\ db (for_articles env page_num i (el :: rest) st) = db st
  /\ words (for_articles env page_num i (el :: rest) st) = words st
  /\ keepSeeking (for_articles env page_num i (el :: rest) st) = keepSeeking st
  /\ last (stdout (for_articles env page_num i (el :: rest) st)) = Some (exc_msg e).
Proof.
  intros Hi He Hidx.
  assert (Hfor : for_articles env page_num i (el :: rest) st = emit (exc_msg e) st1).
  { cbn [for_articles]. unfold process_article.
    destruct (1000 <=? i)%nat eqn:Hle; [apply Nat.leb_le in Hle; lia|].
    now rewrite He, Hidx. }
  rewrite Hfor. apply reads_extract in He as (A1 & A2 & A3 & A4 & _).
  cbn in *. split_and!; auto. now rewrite last_snoc.
Qed.

End ReadOnly.

(** The site serves page 1 of the listing and no article page. *)
Definition env_detail_down : Env :=
  {| web := fun _ url => if String.eqb url (url_unformatted 1) then Some listing1 else None;
     db_raises := fun _ _ => false;
     columns := columns1; doi_column := columns1_doi |}.

Lemma extraction_error_ends_the_page_witness :
  for_articles env_detail_down 1 0 [card_ok; card_ok] st0
  = emit "request failed"
      (fst (extract env_detail_down card_ok (emit "Article: 0" st0)))
  /\ db (for_articles env_detail_down 1 0 [card_ok; card_ok] st0) = db st0
  /\ words (for_articles env_detail_down 1 0 [card_ok; card_ok] st0) = words st0
  /\ keepSeeking (for_articles env_detail_down 1 0 [card_ok; card_ok] st0) = keepSeeking st0
  /\ last (stdout (for_articles env_detail_down 1 0 [card_ok; card_ok] st0))
     = Some "request failed".
Proof.
  apply (extraction_error_ends_the_page env_detail_down 1 0 card_ok [card_ok] st0 _
           (mkExc RequestError "request failed")).
  - lia.
  - vm_compute. reflexivity.
  - reflexivity.
Defined.

(** * The cap on the cards of a page *)

Section PageCap.

Variable env : Env.

Lemma for_articles_take (page_num : Z) (els : list Card) :
  forall (i : nat) (st : State),
  (i <= 1000)%nat ->
  for_articles env page_num i els st
  = for_articles env page_num i (take (1001 - i) els) st.
Proof.
  induction els as [|el rest IH]; intros i st Hi.
  - now rewrite take_nil.
  - replace (1001 - i)%nat with (S (1000 - i)) by lia. cbn [firstn for_articles].
    destruct (process_article env page_num i el st) as [st' [|]] eqn:Hp; [|reflexivity].
    assert (Hlt : (i < 1000)%nat).
    { destruct (decide (i = 1000%nat)) as [->|]; [|lia]. unfold process_article in Hp.
      change (1000 <=? 1000)%nat with true in Hp. discriminate. }
    rewrite (IH (S i) st') by lia. now replace (1001 - S i)%nat with (1000 - i)%nat by lia.
Qed.

(** X15. At most a thousand cards of a page are read: the loop over the cards
    does the same on a page as on its first 1001 sections, and for the
    section at index 1000 it prints a line and stops, without reading the
    card. *)
Theorem page_is_cut_at_a_thousand_cards (page_num : Z) (els : list Card) (el : Card) (st : State) :
  for_articles env page_num 0 els st = for_articles env page_num 0 (take 1001 els) st
  /\ process_article env page_num 1000 el st
     = (emit "Reached 1000 articles..." (emit "Article: 1000" st), Break).
Proof.
  split; [|reflexivity]. now rewrite (for_articles_take page_num els 0 st) by lia.
Qed.

End PageCap.

(** * The page numbers of a run *)

Section PageBounds.

Variable env : Env.
Variable max_pages : Z.





End PageBounds.

(** * The rows of AUTHORS *)

Section AuthorRows.

Variable env : Env.

Definition author_rows (st : State) : list Entry := t_rows (db_AUTHORS (db st)).

(** AUTHORS has grown by at most [n] rows. *)
Definition grown_by (n : nat) (st st' : State) : Prop :=
  exists new, author_rows st' = author_rows st ++ new /\ (List.length new <= n)%nat.

Lemma grown_by_refl (n : nat) (st : State) : grown_by n st st.
Proof. exists []. rewrite app_nil_r. split; [reflexivity | cbn; lia]. Qed.

Lemma grown_by_same (n : nat) (st st' : State) : db st' = db st -> grown_by n st st'.
Proof.
  intros H. exists []. unfold author_rows. rewrite H, app_nil_r. split; [reflexivity | cbn; lia].
Qed.

Lemma grown_by_trans (n m : nat) (st1 st2 st3 : State) :
  grown_by n st1 st2 -> grown_by m st2 st3 -> grown_by (n + m) st1 st3.
Proof.
  intros (a & Ha & La) (b & Hb & Lb). exists (a ++ b).
  rewrite Hb, Ha, <- app_assoc, length_app. split; [reflexivity | lia].
Qed.

Lemma resolve_author_rows d orcid (st st' : State) (r : Res Value) :
  resolve_author env d orcid st = (st', r) -> grown_by 1 st st'.
Proof.
  unfold resolve_author, bind.
  destruct (find_author env _ orcid st) as [st1 [e|[auth_id|]]] eqn:Hf;
    apply find_author_state in Hf as [Hdb Hw].
  - intros [= <- _]. now apply grown_by_same.
  - intros [= <- _]. now apply grown_by_same.
  - unfold myInsert.
    destruct (execute_insert env AUTHORS _ st1) as [st2 [e|pk]] eqn:Hi;
      apply execute_insert_state in Hi as [[Hst [e' He]] | [-> He]]; try discriminate.
    + destruct Hst as [-> | ->]; intros [= <- _]; now apply grown_by_same.
    + intros H. assert (st' = set_db
                 (set_table AUTHORS (fst (insert_row AUTHORS
                    (truncateEntries env (removeNones (<["ORCID":=value_of_option orcid]> d)) AUTHORS)
                    (get_table AUTHORS (db st1)))) (db st1))
                 (log (EvInsert AUTHORS
                    (truncateEntries env (removeNones (<["ORCID":=value_of_option orcid]> d)) AUTHORS))
                    st1)) as ->.
      { revert H. destruct (bool_decide _); unfold lift; intros [= <- _]; reflexivity. }
      eexists. unfold author_rows. cbn. rewrite Hdb. split; [reflexivity | cbn; lia].
Qed.

Lemma link_author_rows aid auth_id (seen : gset Value) (st st' : State) (r : Res (gset Value)) :
  link_author env aid auth_id seen st = (st', r) -> author_rows st' = author_rows st.
Proof.
  unfold link_author. destruct (bool_decide (auth_id ∈ seen)).
  - intros [= <- _]. reflexivity.
  - unfold bind, myInsert.
    destruct (execute_insert env ARTICLES_AUTHORS _ st) as [st1 [e|pk]] eqn:Hi;
      apply execute_insert_state in Hi as [[[-> | ->] [e' He]] | [-> He]]; try discriminate;
      intros [= <- _]; reflexivity.
Qed.

Lemma author_step_rows aid orcids i auth (seen : gset Value) (st st' : State)
    (r : Res (gset Value)) :
  author_step env aid orcids i auth seen st = (st', r) -> grown_by 1 st st'.
Proof.
  unfold author_step, bind, lift.
  destruct (getSingleAuthorDict auth) as [e|d]; [intros [= <- _]; apply grown_by_refl|].
  destruct (index_key d "FIRSTNAME") as [e|f]; [intros [= <- _]; apply grown_by_refl|].
  destruct (bool_decide (f = VStr "")); [intros [= <- _]; apply grown_by_refl|].
  destruct (index orcids i) as [e|orcid]; [intros [= <- _]; apply grown_by_refl|].
  destruct (resolve_author env d orcid st) as [st1 [e|auth_id]] eqn:Hr;
    apply resolve_author_rows in Hr.
  - intros [= <- _]. exact Hr.
  - intros H. apply link_author_rows in H. destruct Hr as (new & Hn & Hl).
    exists new. rewrite H. auto.
Qed.

Lemma author_loop_rows aid orcids auths :
  forall i (seen : gset Value) (st st' : State) (r : Res (gset Value)),
  author_loop env aid orcids i auths seen st = (st', r) ->
  grown_by (List.length auths) st st'.
Proof.
  induction auths as [|auth rest IH]; intros i seen st st' r.
  - intros [= <- _]. apply grown_by_refl.
  - cbn [author_loop]. unfold bind.
    destruct (author_step env aid orcids i auth seen st) as [st1 [e|seen1]] eqn:Hs;
      apply author_step_rows in Hs.
    + intros [= <- _]. destruct Hs as (new & Hn & Hl). exists new. split; [exact Hn|].
      cbn [List.length]. lia.
    + intros H. apply IH in H. exact (grown_by_trans 1 _ _ _ _ Hs H).
Qed.

Lemma store_body_rows (x : Extracted) (st st' : State) (r : Res (gset Value)) :
  store_body env x st = (st', r) -> grown_by (List.length (authors_proper x)) st st'.
Proof.
  unfold store_body, bind, myInsert, lift.
  destruct (execute_insert env ARTICLES _ st) as [st1 [e|pk]] eqn:Hi;
    apply execute_insert_state in Hi as [[Hst [e' He]] | [-> He]]; try discriminate.
  - destruct Hst as [-> | ->]; intros [= <- _]; now apply grown_by_same.
  - destruct (index pk 0) as [e|aid].
    + intros [= <- _]. exists []. unfold author_rows. cbn. rewrite app_nil_r.
      split; [reflexivity | lia].
    + intros H. apply author_loop_rows in H. destruct H as (new & Hn & Hl).
      exists new. split; [|exact Hl]. rewrite Hn. reflexivity.
Qed.

(** X17. The transaction of an article never removes or changes a row of
    AUTHORS: it adds at most one row for each author listed on the page, at
    the end of the table, and none when it fails. *)
Theorem authors_only_grow (x : Extracted) (st st' : State) (r : Res (gset Value)) :
  store_article env x st = (st', r) ->
  exists new,
    author_rows st' = author_rows st ++ new
    /\ (List.length new <= List.length (authors_proper x))%nat
    /\ (forall e, r = inl e -> new = []).
Proof.
  rewrite store_article_body. intros H.
  assert (Hnone : forall s : State, db s = db st ->
            exists new, author_rows s = author_rows st ++ new
              /\ (List.length new <= List.length (authors_proper x))%nat
              /\ (forall e, r = inl e -> new = [])).
  { intros s Hs. exists []. unfold author_rows. rewrite Hs, app_nil_r.
    split_and!; [reflexivity | cbn; lia | reflexivity]. }
  apply with_transaction_cases in H
    as [[-> [e ->]] | [(st1 & e & Hb & -> & ->) | (st1 & a & Hb & [[-> [e ->]] | [-> ->]])]];
    try (apply Hnone; reflexivity).
  apply store_body_rows in Hb as (new & Hn & Hl).
  exists new. split_and!; [exact Hn | exact Hl | discriminate].
Qed.

End AuthorRows.

Lemma authors_only_grow_witness :
  exists new,
    author_rows (fst (store_article env1 x_card_ok st0)) = author_rows st0 ++ new
    /\ (List.length new <= List.length (authors_proper x_card_ok))%nat
    /\ (forall e, snd (store_article env1 x_card_ok st0) = inl e -> new = []).
Proof.
  apply (authors_only_grow env1 x_card_ok st0 _ (snd (store_article env1 x_card_ok st0))).
  apply surjective_pairing.
Defined.

(** * Articles passed over without a word *)

Section SilentSkip.

Variable env : Env.

Lemma doi_of_total (values : list string) : exists r, NatureArticle.doi_of values = inr r.
Proof.
  induction values as [|v rest IH]; [now exists None|].
  cbn [NatureArticle.doi_of]. destruct (contains "doi.org" v); [|exact IH].
  destruct (last_elt_split "doi.org/" v) as [l ->]. now exists (Some l).
Qed.

(** X18. An article whose page has no metrics bar is passed over like a card
    without a link: [metrics] raises [IndexError], which the first [try]
    block takes as the signal to go on with the next card.  Its page was
    requested, and that is all: nothing is looked up, nothing is stored and
    no line about it is printed. *)
Theorem article_without_metrics_bar_is_skipped
    (page_num : Z) (i : nat) (el : Card) (st : State)
    (title href : string) (others : list (string * option string)) (soup : Soup) :
  (i < 1000)%nat ->
  card_links el = (title, Some href) :: others ->
  web env (trace st) (Nature.basehref +:+ href) = Some soup ->
  metrics_wrappers soup = [] ->
  process_article env page_num i el st
  = (log (EvGet (Nature.basehref +:+ href))
       (emit ("Article: " +:+ str_of_int (Z.of_nat i)) st), Continue).
Proof.
  intros Hi Hlinks Hweb Hbar. unfold process_article.
  destruct (1000 <=? i)%nat eqn:Hle; [apply Nat.leb_le in Hle; lia|].
  unfold extract, extract_detail, bind, lift, Nature.title, Nature.title_link.
  rewrite Hlinks. cbn [first bindR fst snd attr].
  unfold getSoup. cbn [trace emit]. rewrite Hweb.
  unfold NatureArticle.doi. destruct (doi_of_total (bib_values soup)) as [r ->].
  unfold NatureArticle.metrics. rewrite Hbar. reflexivity.
Qed.

End SilentSkip.

(** A card whose article page is served without a metrics bar. *)
Definition card_no_metrics : Card :=
  {| card_links := [("Cells", Some "/articles/none")];
     card_author_lists := [["Alice B Smith"]];
     card_types := ["Article"];
     card_times := [Some "2023-03-14"] |}.

Lemma article_without_metrics_bar_is_skipped_witness :
  process_article env1 1 0 card_no_metrics st0
  = (log (EvGet (Nature.basehref +:+ "/articles/none")) (emit "Article: 0" st0), Continue).
Proof.
  apply (article_without_metrics_bar_is_skipped env1 1 0 card_no_metrics st0
           "Cells" "/articles/none" [] empty_soup).
  - lia.
  - reflexivity.
  - reflexivity.
  - reflexivity.
Defined.

(** * The ORCID read from a link *)

Section OrcidValue.

Lemma prefix_append (sep d : string) : String.prefix sep (sep +:+ d) = true.
Proof.
  induction sep as [|c sep IH]; [now destruct d|].
  rewrite append_cons. cbn [String.prefix]. destruct (ascii_dec c c); [exact IH | congruence].
Qed.

Lemma split_go_skip (sep a d : string) :
  split_go sep (String.length a) (a +:+ d) = split_go sep 0 d.
Proof.
  induction a as [|c a IH]; [reflexivity|]. rewrite append_cons. exact IH.
Qed.

Ltac no_prefix H :=
  rewrite ?append_cons, ?append_empty_l in H; cbn [String.prefix] in H;
  repeat match type of H with
         | context [ascii_dec ?a ?b] =>
             let E := fresh "E" in
             destruct (ascii_dec a b) as [E|E]; [try discriminate E; try subst | ]
         end;
  try discriminate H.

(** The marker does not overlap itself. *)
Lemma orcid_marker_no_overlap (c : ascii) (a d : string) :
  String.prefix "orcid.org/" (String c (a +:+ "orcid.org/" +:+ d)) = true ->
  (9 <= String.length a)%nat.
Proof.
  intros H.
  destruct a as [|x1 a]; [exfalso; no_prefix H|].
  destruct a as [|x2 a]; [exfalso; no_prefix H|].
  destruct a as [|x3 a]; [exfalso; no_prefix H|].
  destruct a as [|x4 a]; [exfalso; no_prefix H|].
  destruct a as [|x5 a]; [exfalso; no_prefix H|].
  destruct a as [|x6 a]; [exfalso; no_prefix H|].
  destruct a as [|x7 a]; [exfalso; no_prefix H|].
  destruct a as [|x8 a]; [exfalso; no_prefix H|].
  destruct a as [|x9 a]; [exfalso; no_prefix H|].
  cbn [String.length]. lia.
Qed.

Lemma split_go_orcid_marker (d : string) :
  contains "orcid.org/" d = false ->
  forall (a : string) (k : nat),
  (k <= String.length a)%nat ->
  exists p pre, split_go "orcid.org/" k (a +:+ "orcid.org/" +:+ d) = (p :: pre) ++ [d].
Proof.
  intros Hd. induction a as [|c a IH]; intros k Hk.
  - cbn [String.length] in Hk. assert (k = 0%nat) as -> by lia.
    rewrite append_empty_l. exists "", [].
    change ("orcid.org/" +:+ d) with (String "o" ("rcid.org/" +:+ d)).
    cbn [split_go]. change (String "o" ("rcid.org/" +:+ d)) with ("orcid.org/" +:+ d).
    rewrite prefix_append.
    change (String.length "orcid.org/" - 1)%nat with (String.length "rcid.org/").
    now rewrite split_go_skip, (split_go_absent _ _ Hd).
  - rewrite append_cons. cbn [String.length] in Hk. destruct k as [|k].
    + cbn [split_go].
      destruct (String.prefix "orcid.org/" (String c (a +:+ "orcid.org/" +:+ d))) eqn:Hp.
      * apply orcid_marker_no_overlap in Hp.
        destruct (IH (String.length "orcid.org/" - 1)%nat) as (p & pre & ->); [cbn; lia|].
        exists "", (p :: pre). reflexivity.
      * destruct (IH 0%nat) as (p & pre & ->); [lia|].
        exists (String c p), pre. reflexivity.
    + cbn [split_go]. apply IH. lia.
Qed.

(** An author item of the page: without an ORCID link, or with links the
    first of which leads to [orcid.org/] followed by the identifier. *)
Inductive AuthorItem :=
| NoOrcid
| WithOrcid (before identifier : string) (more_links : list (option string)).

Definition item_links (it : AuthorItem) : list (option string) :=
  match it with
  | NoOrcid => []
  | WithOrcid before identifier more_links =>
      Some (before +:+ "orcid.org/" +:+ identifier) :: more_links
  end.

Definition item_orcid (it : AuthorItem) : option string :=
  match it with
  | NoOrcid => None
  | WithOrcid _ identifier _ => Some identifier
  end.

Definition plain_identifier (it : AuthorItem) : Prop :=
  match it with
  | NoOrcid => True
  | WithOrcid _ identifier _ => contains "orcid.org/" identifier = false
  end.

(** X19. For each author item, [orcid_id] reads the first ORCID link only,
    and gives the text after the last [orcid.org/] of its address; an item
    without such a link gives [None]. *)
Theorem orcid_id_reads_the_identifier (items : list AuthorItem) (soup : Soup) :
  author_items soup = List.map item_links items ->
  List.Forall plain_identifier items ->
  NatureArticle.orcid_id soup = inr (List.map item_orcid items).
Proof.
  intros Hitems Hplain. unfold NatureArticle.orcid_id. rewrite Hitems. clear Hitems.
  induction Hplain as [|it items Hit _ IH]; [reflexivity|].
  cbn [List.map NatureArticle.orcid_id_items]. destruct it as [|a o more]; cbn [item_links].
  - rewrite IH. reflexivity.
  - cbn [attr bindR]. cbn [plain_identifier] in Hit.
    destruct (split_go_orcid_marker o Hit a 0 ltac:(lia)) as (p & pre & E).
    unfold split. rewrite E, last_elt_snoc. cbn [bindR]. rewrite IH. reflexivity.
Qed.

End OrcidValue.

Lemma orcid_id_reads_the_identifier_witness :
  NatureArticle.orcid_id article1 = inr [Some "0000-0001"; None; Some "0000-0001"].
Proof.
  apply (orcid_id_reads_the_identifier
           [WithOrcid "https://" "0000-0001" []; NoOrcid; WithOrcid "https://" "0000-0001" []]
           article1).
  - reflexivity.
  - repeat constructor.
Defined.

(** * The dates of the bibliographic list *)

Section BibDates.

Import Datetime.











End BibDates.





(** * Empty words *)

Section EmptyWords.

Variable env : Env.

(** C10.  The tokens of a title are the pieces, cut at every single space,
    of the title with each character outside [a-zA-Z0-9] replaced by a
    space.  When the word count of a stored article ends normally, the
    stored procedure was called once for each token, in order, with the
    token in lower case.  A title that begins or ends with a character
    outside [a-zA-Z0-9], or has two such characters side by side, has an
    empty token, and the procedure was called with the empty string for
    it. *)
Theorem empty_tokens_reach_the_procedure (x : Extracted) (title : string) (st st' : State) :
  title_of (articles_entry x) = inr title ->
  leading_non_alnum title || trailing_non_alnum title || consecutive_non_alnum title = true ->
  count_title_words env x st = (st', inr tt) ->
  let tokens := split " " (map_str (fun c => if is_alnum c then c else " "%char) title) in
  In "" tokens
  /\ List.Forall (fun w => all_chars is_alnum w = true) tokens
  /\ trace st'
     = trace st ++ [EvCursor]
       ++ List.map (fun w => EvCallProc "AddOrIncrementWord" [lower w]) tokens
       ++ [EvConnectorCommit]
  /\ In (EvCallProc "AddOrIncrementWord" [""]) (trace st').
Proof.
  intros Ht Hgap Hrun tokens.
  assert (Htokens : tokens = cleaned_title title) by reflexivity.
  pose proof (cleaned_title_empty_token title Hgap) as Hin. rewrite <- Htokens in Hin.
  assert (Htr : trace st' = trace st ++ [EvCursor] ++ List.map word_call tokens
                              ++ [EvConnectorCommit]).
  { unfold count_title_words, bind, lift in Hrun. rewrite Ht in Hrun.
    destruct (db_call env EvCursor st) as [st1 [e|[]]] eqn:Hc; [discriminate|].
    apply db_call_trace in Hc. subst st1.
    destruct (word_loop env (cleaned_title title) (log EvCursor st)) as [st2 [e|[]]] eqn:Hw;
      [discriminate|].
    apply word_loop_trace in Hw as (k & Hk & Hlen & _). specialize (Hlen eq_refl). subst k.
    rewrite firstn_all in Hk.
    destruct (db_call env EvConnectorCommit st2) as [st3 [e|[]]] eqn:Hcm; [discriminate|].
    apply db_call_trace in Hcm. subst st3. injection Hrun as <-.
    cbn. rewrite Hk. cbn. rewrite Htokens. now rewrite <- !app_assoc. }
  split; [exact Hin|]. split; [rewrite Htokens; apply cleaned_title_alnum|].
  split; [exact Htr|].
  rewrite Htr, !in_app_iff. right. right. left.
  apply in_map_iff. exists "". split; [reflexivity | exact Hin].
Qed.

End EmptyWords.

Lemma empty_tokens_reach_the_procedure_witness :
  In "" ["Tumour"; "cells"; ""; "and"; ""; "more"]
  /\ List.Forall (fun w => all_chars is_alnum w = true)
       ["Tumour"; "cells"; ""; "and"; ""; "more"]
  /\ trace (fst (count_title_words env1 x_tumour st0))
     = trace st0 ++ [EvCursor]
       ++ List.map (fun w => EvCallProc "AddOrIncrementWord" [lower w])
            ["Tumour"; "cells"; ""; "and"; ""; "more"]
       ++ [EvConnectorCommit]
  /\ In (EvCallProc "AddOrIncrementWord" [""])
        (trace (fst (count_title_words env1 x_tumour st0))).
Proof.
  apply (empty_tokens_reach_the_procedure env1 x_tumour "Tumour cells, and  more" st0).
  - reflexivity.
  - reflexivity.
  - vm_compute. reflexivity.
Defined.
